(** * aiter: kernel resolution, caching and shape dispatch

    A shallow embedding of
      - [csrc/ck_gemm_a8w8/gemm_a8w8.cu]: the shape dispatcher of the
        row-wise quantised GEMM ([rowwise_heuristic_dispatch], [nextPow2],
        [rowwise_dispatch], [gemm_a8w8]);
      - the JIT helper header ([init_lru_cache], [get_root_dir],
        [SharedLibrary], [run_lib], [hash_signature],
        [get_default_func_name], [not_built]).

    C++ [int] values are integers of [Z] with the conversions written out,
    exceptions and undefined behaviour are outcomes of the [Result] type, and
    the process-wide statics are fields of an explicit [Process] state.

    What the two files use but do not define is a parameter (the generated
    lookup table, the macro [torch_fp8], the compiled kernels, the digest
    of OpenSSL) or, for the class [LRUCache] of [lru_cache.h], a model
    written from the design document and marked as such. *)

From Stdlib Require Import ZArith QArith Lia Ascii.
From Stdlib.Strings Require Import Byte.
From Stdlib Require DecimalString DecimalNat DecimalFacts.
From stdpp Require Import base option list gmap strings.

Local Open Scope Z_scope.

(* ===================================================================== *)
(** * Part I: definitions                                                  *)
(* ===================================================================== *)

(** ** Outcomes of a C++ call *)

(** The exception classes the two translation units throw. *)
Inductive exn : Type :=
| runtime_error (what : string)   (* std::runtime_error *)
| c10_Error (msg : string)        (* a failed TORCH_CHECK *)
| c10_IndexError (msg : string).  (* Tensor::size on a missing dimension *)

(** A call returns, throws, or has undefined behaviour. *)
Inductive Result (A : Type) : Type :=
| Ok (a : A)
| Throw (e : exn)
| Undefined.
Arguments Ok {A} a.
Arguments Throw {A} e.
Arguments Undefined {A}.

#[global] Instance Result_ret : MRet Result := fun A a => Ok a.
#[global] Instance Result_bind : MBind Result := fun A B f m =>
  match m with
  | Ok a => f a
  | Throw e => Throw e
  | Undefined => Undefined
  end.
#[global] Instance Result_fmap : FMap Result := fun A B f m =>
  match m with
  | Ok a => Ok (f a)
  | Throw e => Throw e
  | Undefined => Undefined
  end.

(** ** 32-bit integers *)

Definition INT_MIN : Z := - 2 ^ 31.
Definition INT_MAX : Z := 2 ^ 31 - 1.

(** Conversion to [int] (two's complement wrap-around). *)
Definition to_int (z : Z) : Z := (z + 2 ^ 31) mod 2 ^ 32 - 2 ^ 31.

(** Conversion to [unsigned int]. *)
Definition to_unsigned (z : Z) : Z := z mod 2 ^ 32.

Definition in_int_range (z : Z) : bool := (INT_MIN <=? z) && (z <=? INT_MAX).

(* ===================================================================== *)
(** ** gemm_a8w8.cu: kernel variants                                       *)
(* ===================================================================== *)

(** The element types the kernel templates are instantiated at. *)
Inductive DataType : Type := I8 | F8 | F32 | F16 | B16.

#[global] Instance DataType_eq_dec : EqDecision DataType.
Proof. solve_decision. Defined.

(** A [RowwiseKernel] is a reference to one instantiation
    [name<ABDataType, DDataType, EDataType>] of a kernel template. *)
Record RowwiseKernel : Type := mkKernel {
  kernel_template : string;
  kernel_ab : DataType;
  kernel_d : DataType;
  kernel_e : DataType
}.

#[global] Instance RowwiseKernel_eq_dec : EqDecision RowwiseKernel.
Proof. solve_decision. Defined.

(** The key of the lookup table, [std::tuple<int, int, int>]. *)
Abbreviation ShapeKey := (Z * Z * Z)%type.

(** [RowwiseKernelMap]: an unordered map from shapes to kernels. *)
Abbreviation RowwiseKernelMap := (gmap ShapeKey RowwiseKernel).

Section Templates.
(** The template parameters of the dispatch functions. *)
Variables ABDataType DDataType EDataType : DataType.

Definition a8w8_rowwise_256x256x128x64_32x32_4x2_4x64x1_4x64x1_1x32x1x8_8x8x1_1x1_interwave_v1 : RowwiseKernel :=
  mkKernel "a8w8_rowwise_256x256x128x64_32x32_4x2_4x64x1_4x64x1_1x32x1x8_8x8x1_1x1_interwave_v1"
           ABDataType DDataType EDataType.
Definition a8w8_rowwise_64x16x16x128_16x16_1x1_8x8x1_8x8x1_1x16x1x4_4x4x1_1x1_interwave_v2 : RowwiseKernel :=
  mkKernel "a8w8_rowwise_64x16x16x128_16x16_1x1_8x8x1_8x8x1_1x16x1x4_4x4x1_1x1_interwave_v2"
           ABDataType DDataType EDataType.
Definition a8w8_rowwise_128x16x32x128_16x16_1x1_8x16x1_8x16x1_1x16x1x8_4x4x1_1x1_intrawave_v2 : RowwiseKernel :=
  mkKernel "a8w8_rowwise_128x16x32x128_16x16_1x1_8x16x1_8x16x1_1x16x1x8_4x4x1_1x1_intrawave_v2"
           ABDataType DDataType EDataType.
Definition a8w8_rowwise_128x32x16x128_16x16_1x1_8x16x1_8x16x1_1x16x1x8_2x2x1_1x1_interwave_v2 : RowwiseKernel :=
  mkKernel "a8w8_rowwise_128x32x16x128_16x16_1x1_8x16x1_8x16x1_1x16x1x8_2x2x1_1x1_interwave_v2"
           ABDataType DDataType EDataType.
Definition a8w8_rowwise_64x16x16x256_16x16_1x1_16x4x1_16x4x1_1x16x1x4_4x4x1_1x1_intrawave_v1 : RowwiseKernel :=
  mkKernel "a8w8_rowwise_64x16x16x256_16x16_1x1_16x4x1_16x4x1_1x16x1x4_4x4x1_1x1_intrawave_v1"
           ABDataType DDataType EDataType.
Definition a8w8_rowwise_256x128x128x128_32x32_2x2_8x32x1_8x32x1_1x32x1x8_8x8x1_1x1_interwave_v1 : RowwiseKernel :=
  mkKernel "a8w8_rowwise_256x128x128x128_32x32_2x2_8x32x1_8x32x1_1x32x1x8_8x8x1_1x1_interwave_v1"
           ABDataType DDataType EDataType.
Definition a8w8_rowwise_256x128x128x128_32x32_2x2_8x32x1_8x32x1_1x32x1x8_8x8x1_1x1_intrawave_v3 : RowwiseKernel :=
  mkKernel "a8w8_rowwise_256x128x128x128_32x32_2x2_8x32x1_8x32x1_1x32x1x8_8x8x1_1x1_intrawave_v3"
           ABDataType DDataType EDataType.
Definition a8w8_rowwise_256x224x256x128_16x16_7x8_8x32x1_8x32x1_1x32x1x8_8x8x1_1x2_intrawave_v3 : RowwiseKernel :=
  mkKernel "a8w8_rowwise_256x224x256x128_16x16_7x8_8x32x1_8x32x1_1x32x1x8_8x8x1_1x2_intrawave_v3"
           ABDataType DDataType EDataType.

(** [rowwise_heuristic_dispatch<ABDataType, DDataType, EDataType>(M, N, K)]:
    the if / else-if ladder, branch for branch. *)
Definition rowwise_heuristic_dispatch (M N K : Z) : RowwiseKernel :=
  if K <? 512 then
    a8w8_rowwise_256x256x128x64_32x32_4x2_4x64x1_4x64x1_1x32x1x8_8x8x1_1x1_interwave_v1
  else if (M <? 64) && (N <? 2048) && (K <? 2048) then
    a8w8_rowwise_64x16x16x128_16x16_1x1_8x8x1_8x8x1_1x16x1x4_4x4x1_1x1_interwave_v2
  else if (M <? 64) && (K <? 2048) then
    a8w8_rowwise_128x16x32x128_16x16_1x1_8x16x1_8x16x1_1x16x1x8_4x4x1_1x1_intrawave_v2
  else if (M <? 64) && (N <? 2048) then
    a8w8_rowwise_128x32x16x128_16x16_1x1_8x16x1_8x16x1_1x16x1x8_2x2x1_1x1_interwave_v2
  else if (M <? 64) && (2048 <? N) && (2048 <? K) then
    a8w8_rowwise_64x16x16x256_16x16_1x1_16x4x1_16x4x1_1x16x1x4_4x4x1_1x1_intrawave_v1
  else if M <? 64 then
    a8w8_rowwise_64x16x16x128_16x16_1x1_8x8x1_8x8x1_1x16x1x4_4x4x1_1x1_interwave_v2
  else if K <? 1024 then
    a8w8_rowwise_256x128x128x128_32x32_2x2_8x32x1_8x32x1_1x32x1x8_8x8x1_1x1_interwave_v1
  else if M <? 1024 then
    a8w8_rowwise_256x128x128x128_32x32_2x2_8x32x1_8x32x1_1x32x1x8_8x8x1_1x1_intrawave_v3
  else if (1024 <=? M) && (1024 <=? N) && (1024 <=? K) then
    a8w8_rowwise_256x256x128x64_32x32_4x2_4x64x1_4x64x1_1x32x1x8_8x8x1_1x1_interwave_v1
  else
    a8w8_rowwise_256x224x256x128_16x16_7x8_8x32x1_8x32x1_1x32x1x8_8x8x1_1x2_intrawave_v3.
End Templates.

(** [__builtin_clz] on a non-zero 32-bit value: the number of leading zero
    bits. *)
Definition builtin_clz (x : Z) : Z := 31 - Z.log2 x.

(** [nextPow2(unsigned int num)]. The result type is [int]: the shift
    [1 << 31] wraps to [INT_MIN], and a shift by the full width of [int]
    (reached when [num - 1] has its top bit set) is undefined. *)
Definition nextPow2 (num : Z) : Result Z :=
  if num <=? 1 then Ok 1
  else
    let shift := 8 * 4 - builtin_clz (num - 1) in
    if shift <? 32 then Ok (to_int (Z.shiftl 1 shift)) else Undefined.

Section Dispatch.
(** [GENERATE_LOOKUP_TABLE(ABDataType, DDataType, EDataType)] comes from
    the generated header [gemm_a8w8_lookup.h]: a brace list of
    [{{M, N, K}, kernel<ABDataType, DDataType, EDataType>}] entries. *)
Variable GENERATE_LOOKUP_TABLE :
  DataType -> DataType -> DataType -> list (ShapeKey * RowwiseKernel).

Section Instantiation.
Variables ABDataType DDataType EDataType : DataType.

(** The function-local static [lookup]. An unordered map built from an
    initialiser list keeps the first entry of a repeated key, as
    [list_to_map] does. *)
Definition lookup : RowwiseKernelMap :=
  list_to_map (GENERATE_LOOKUP_TABLE ABDataType DDataType EDataType).

(** The bucketing of [M] between the two lookups. *)
Definition padded_m (M : Z) : Result Z :=
  if (1 <? M) && (M <=? 16) then Ok 16
  else if M <=? 16384 then nextPow2 (to_unsigned M)
  else if M <=? 20480 then Ok 20480
  else Ok M.

(** [rowwise_dispatch<ABDataType, DDataType, EDataType>(M, N, K)]. *)
Definition rowwise_dispatch (M N K : Z) : Result RowwiseKernel :=
  match lookup !! (M, N, K) with
  | Some kernel => Ok kernel
  | None =>
      pm ← padded_m M;
      match lookup !! (pm, N, K) with
      | Some kernel => Ok kernel
      | None => Ok (rowwise_heuristic_dispatch ABDataType DDataType EDataType M N K)
      end
  end.
End Instantiation.
End Dispatch.

(* ===================================================================== *)
(** ** gemm_a8w8.cu: the operator entry point                              *)
(* ===================================================================== *)

(** [at::ScalarType], the element types of a tensor. *)
Inductive ScalarType : Type :=
| Byte | Char | Short | Int | Long | Half | Float | Double | BFloat16 | Bool
| Float8_e5m2 | Float8_e4m3fn | Float8_e5m2fnuz | Float8_e4m3fnuz.

#[global] Instance ScalarType_eq_dec : EqDecision ScalarType.
Proof. solve_decision. Defined.

(** A [torch::Tensor] is a handle on a tensor object: [impl] is the identity
    of the object the handle points to, so two handles denote the same
    tensor exactly when they are equal. *)
Record Tensor : Type := mkTensor {
  impl : nat;
  dtype : ScalarType;
  sizes : list Z
}.

#[global] Instance Tensor_eq_dec : EqDecision Tensor.
Proof. solve_decision. Defined.

(** [t.size(d)] for a literal, non-negative [d]: the extent of dimension
    [d], an [IndexError] when the tensor has no such dimension. *)
Definition size (t : Tensor) (d : nat) : Result Z :=
  match sizes t !! d with
  | Some n => Ok n
  | None => Throw (c10_IndexError "Dimension out of range")
  end.

(** [TORCH_CHECK(cond, msg)]. *)
Definition TORCH_CHECK (cond : bool) (msg : string) : Result unit :=
  if cond then Ok () else Throw (c10_Error msg).

(** [std::pow(2, e)] for an [int] exponent. Powers of two are exact in
    binary floating point, so the value is the rational [2 ^ e]. *)
Definition std_pow2 (e : Z) : Q := Qpower (2 # 1) e.

(** The conversion of a floating-point value to [int]: truncation towards
    zero, undefined when the truncated value is no [int].  (An exponent
    beyond the range of [double] gives 0 or infinity there; both agree with
    this reading.) *)
Definition double_to_int (q : Q) : Result Z :=
  let t := Z.quot (Qnum q) (Zpos (Qden q)) in
  if in_int_range t then Ok t else Undefined.

(** The arguments a [RowwiseKernel] is called with. *)
Record KernelArgs : Type := mkArgs {
  arg_XQ : Tensor;
  arg_WQ : Tensor;
  arg_x_scale : Tensor;
  arg_w_scale : Tensor;
  arg_Y : Tensor;
  arg_bias : option Tensor;
  arg_KBatch : Z
}.

Section Gemm.
Variable GENERATE_LOOKUP_TABLE :
  DataType -> DataType -> DataType -> list (ShapeKey * RowwiseKernel).
(** [torch_fp8] is a macro of [py_itfs_common.h], one of the 8-bit float
    scalar types. *)
Variable torch_fp8 : ScalarType.
(** The kernels themselves are compiled from other translation units:
    [Memory] is the state they act on (the contents of the tensors) and
    [invoke kernel args mem] the outcome of calling [kernel]. *)
Variable Memory : Type.
Variable invoke : RowwiseKernel -> KernelArgs -> Memory -> Result (Tensor * Memory).

(** One arm of the dtype switch:
    [rowwise_dispatch<AB, D, E>(M, N, K)(XQ, WQ, x_scale, w_scale, Y, bias, KBatch);]
    The value the kernel returns is dropped. *)
Definition dispatch_and_run (AB D E : DataType) (M N K : Z)
    (args : KernelArgs) (mem : Memory) : Result Memory :=
  kernel ← rowwise_dispatch GENERATE_LOOKUP_TABLE AB D E M N K;
  r ← invoke kernel args mem;
  Ok r.2.

(** [gemm_a8w8(XQ, WQ, x_scale, w_scale, Y, bias, splitK)]. *)
Definition gemm_a8w8 (XQ WQ x_scale w_scale Y : Tensor) (bias : option Tensor)
    (splitK : Z) (mem : Memory) : Result (Tensor * Memory) :=
  _ ← TORCH_CHECK
        ((bool_decide (dtype XQ = Char) || bool_decide (dtype XQ = torch_fp8))
         && bool_decide (dtype XQ = dtype WQ))
        "Weights and activations should both be int8/fp8!";
  _ ← TORCH_CHECK (bool_decide (dtype x_scale = dtype w_scale))
        "Scales should have the same dtype!";
  _ ← match bias with
      | Some b => TORCH_CHECK (bool_decide (dtype b = dtype Y))
                    "Out amd bias should have the same dtype!"
      | None => Ok ()
      end;
  M ← to_int <$> size XQ 0;
  N ← to_int <$> size WQ 0;
  K ← to_int <$> size XQ 1;
  KBatch ← double_to_int (std_pow2 splitK);
  let args := mkArgs XQ WQ x_scale w_scale Y bias KBatch in
  mem' ←
    (if bool_decide (dtype XQ = Char) then
       if bool_decide (dtype x_scale = Float) && bool_decide (dtype Y = Half) then
         dispatch_and_run I8 F32 F16 M N K args mem
       else if bool_decide (dtype x_scale = Float) && bool_decide (dtype Y = BFloat16) then
         dispatch_and_run I8 F32 B16 M N K args mem
       else if bool_decide (dtype Y = Half) then
         dispatch_and_run I8 F16 F16 M N K args mem
       else if bool_decide (dtype Y = BFloat16) then
         dispatch_and_run I8 B16 B16 M N K args mem
       else
         Throw (c10_Error "Unsupported scales/output dtype!")
     else
       if bool_decide (dtype x_scale = Float) && bool_decide (dtype Y = Half) then
         dispatch_and_run F8 F32 F16 M N K args mem
       else if bool_decide (dtype x_scale = Float) && bool_decide (dtype Y = BFloat16) then
         dispatch_and_run F8 F32 B16 M N K args mem
       else if bool_decide (dtype Y = Half) then
         dispatch_and_run F8 F16 F16 M N K args mem
       else if bool_decide (dtype Y = BFloat16) then
         dispatch_and_run F8 B16 B16 M N K args mem
       else
         Throw (c10_Error "Unsupported scales/output dtype!"));
  Ok (Y, mem').
End Gemm.

(* ===================================================================== *)
(** ** The JIT helper header: C library functions it calls                 *)
(* ===================================================================== *)

Definition char_code (c : ascii) : Z := Z.of_N (N_of_ascii c).

(** [isspace] and [isdigit] of the C locale. *)
Definition isspace (c : ascii) : bool :=
  ((9 <=? char_code c) && (char_code c <=? 13)) || (char_code c =? 32).

Definition isdigit (c : ascii) : bool :=
  (48 <=? char_code c) && (char_code c <=? 57).

Fixpoint skip_spaces (s : string) : string :=
  match s with
  | String c r => if isspace c then skip_spaces r else s
  | EmptyString => s
  end.

(** The value of the longest prefix of decimal digits, continuing [acc]. *)
Fixpoint digits (acc : Z) (s : string) : Z :=
  match s with
  | String c r => if isdigit c then digits (10 * acc + (char_code c - 48)) r else acc
  | EmptyString => acc
  end.

(** [atoi(nptr)]: white space, an optional sign, decimal digits; 0 when no
    digit follows. A value that is no [int] is undefined behaviour. *)
Definition atoi (nptr : string) : Result Z :=
  let s := skip_spaces nptr in
  let v := match s with
           | String "-"%char r => - digits 0 r
           | String "+"%char r => digits 0 r
           | _ => digits 0 s
           end in
  if in_int_range v then Ok v else Undefined.

(** [std::tolower] on an [unsigned char], C locale: only A..Z change. *)
Definition tolower (c : ascii) : ascii :=
  if (65 <=? char_code c) && (char_code c <=? 90)
  then ascii_of_N (N_of_ascii c + 32)
  else c.

(** [std::transform(s.begin(), s.end(), s.begin(), f)]. *)
Fixpoint transform (f : ascii -> ascii) (s : string) : string :=
  match s with
  | String c r => String (f c) (transform f r)
  | EmptyString => EmptyString
  end.

(** [std::filesystem::path::operator/] on POSIX paths: an absolute right
    operand replaces the left one; otherwise a separator is added unless
    the left operand is empty or already ends in one. *)
Definition is_absolute (p : string) : bool :=
  match p with String "/"%char _ => true | _ => false end.

Fixpoint ends_with_separator (p : string) : bool :=
  match p with
  | EmptyString => false
  | String c EmptyString => bool_decide (c = "/"%char)
  | String _ r => ends_with_separator r
  end.

Definition path_append (p q : string) : string :=
  if is_absolute q then q
  else if bool_decide (p = "") || ends_with_separator p then p +:+ q
  else p +:+ "/" +:+ q.

Notation "p </> q" := (path_append p q) (at level 40, left associativity).

(** What is on disk at a path: a loadable shared object, or some other
    file the dynamic loader rejects. [symbols] are the names [dlsym]
    resolves through a handle on the object: the symbols the object
    defines and those the libraries it depends on define. *)
Inductive File : Type :=
| SharedObject (symbols : list string)
| OtherFile.

(** The world outside the process: environment variables and files. *)
Record World : Type := mkWorld {
  environ : gmap string string;
  files : gmap string File
}.

Definition getenv (w : World) (name : string) : option string := environ w !! name.

(** [std::filesystem::exists]. *)
Definition path_exists (w : World) (p : string) : bool :=
  bool_decide (is_Some (files w !! p)).

(** The texts [dlerror()] returns (glibc's wording). *)
Definition dlerror_no_such_file (path : string) : string :=
  path +:+ ": cannot open shared object file: No such file or directory".
Definition dlerror_rejected (path : string) : string :=
  path +:+ ": invalid ELF header".
Definition dlerror_undefined_symbol (path name : string) : string :=
  path +:+ ": undefined symbol: " +:+ name.

(* ===================================================================== *)
(** ** LRUCache<K, V>                                                      *)
(* ===================================================================== *)

Section LRU.
Context {K V : Type} `{EqDecision K}.

(** Modelled from the spec: [lru_cache.h], which declares the class
    [LRUCache<K, V>], is not among the sources. The spec describes a
    bounded mapping with a configurable capacity whose keys are unique;
    [entries] holds the keys from the most to the least recently
    accessed. *)
Record LRUCache : Type := mkLRU {
  capacity : Z;
  entries : list (K * V)
}.

(** The capacity [init_lru_cache] passes when no size is configured: the
    text -1 of the source, read by [atoi]. *)
Definition unbounded : Z := -1.

(** Modelled from the spec: the capacity values of [lru_cache.h] that
    "indicate unbounded and disable eviction entirely". The spec names no
    value; it says that a size override that is "absent or non-numeric" is
    "treated as unbounded", and [init_lru_cache] passes -1 for the first
    and what [atoi] makes of the text, 0, for the second. So a capacity
    that is not positive sets no bound. *)
Definition is_unbounded (cap : Z) : bool := cap <=? 0.

(** Modelled from the spec: the constructor [LRUCache(capacity)] of
    [lru_cache.h]; a new cache is empty. *)
Definition LRUCache_new (cap : Z) : LRUCache := mkLRU cap [].

(** Modelled from the spec: the lookup of a key in the entries of the
    [LRUCache] of [lru_cache.h]; keys are unique. *)
Fixpoint find_entry (k : K) (l : list (K * V)) : option V :=
  match l with
  | [] => None
  | (k', v) :: r => if decide (k' = k) then Some v else find_entry k r
  end.

(** Modelled from the spec: the removal of a key from the entries of the
    [LRUCache] of [lru_cache.h]. *)
Fixpoint drop_entry (k : K) (l : list (K * V)) : list (K * V) :=
  match l with
  | [] => []
  | (k', v) :: r => if decide (k' = k) then drop_entry k r else (k', v) :: drop_entry k r
  end.

(** Modelled from the spec: [LRUCache::get] of [lru_cache.h]. "Lookup
    counts as an access that refreshes recency": a hit returns the stored
    value and moves the key to the front; a miss returns nothing and
    leaves the cache as it is. *)
Definition LRUCache_get (k : K) (c : LRUCache) : option V * LRUCache :=
  match find_entry k (entries c) with
  | Some v => (Some v, mkLRU (capacity c) ((k, v) :: drop_entry k (entries c)))
  | None => (None, c)
  end.

(** Modelled from the spec: the eviction rule of [lru_cache.h], "the
    least recently accessed key is evicted first when capacity is
    exceeded", never applied to an unbounded cache. *)
Definition evict (c : LRUCache) : LRUCache :=
  if is_unbounded (capacity c) then c
  else if capacity c <? Z.of_nat (length (entries c))
       then mkLRU (capacity c) (removelast (entries c))
       else c.

(** Modelled from the spec: [LRUCache::put] of [lru_cache.h]. "Insertion
    counts as an access that refreshes recency" and "keys are unique":
    the key goes to the front with its new value, then the eviction rule
    applies. *)
Definition LRUCache_put (k : K) (v : V) (c : LRUCache) : LRUCache :=
  evict (mkLRU (capacity c) ((k, v) :: drop_entry k (entries c))).
End LRU.
Arguments LRUCache K V : clear implicits.

(** [init_lru_cache<K, V>(lru_cache)]: the capacity is [atoi] of
    AITER_MAX_CACHE_SIZE, of the text -1 when the variable is not set. *)
Definition init_lru_cache {K V : Type} (w : World) : Result (LRUCache K V) :=
  let AITER_MAX_CACHE_SIZE :=
    match getenv w "AITER_MAX_CACHE_SIZE" with
    | None => "-1"
    | Some text => text
    end in
  aiter_max_cache_size ← atoi AITER_MAX_CACHE_SIZE;
  Ok (LRUCache_new aiter_max_cache_size).

(* ===================================================================== *)
(** ** The JIT helper header: process state                                *)
(* ===================================================================== *)

(** A [SharedLibrary] object: the handle [dlopen] returned for [lib_path]
    and the names [dlsym] resolves through it (those of the loaded object
    and of its dependencies). Every construction gets a
    handle of its own, so two [std::shared_ptr<SharedLibrary>] point to the
    same object exactly when the records are equal. *)
Record SharedLibrary : Type := mkLib {
  handle : nat;
  lib_path : string;
  lib_symbols : list string
}.

(** The statics of the header. A [std::once_flag] is set exactly when the
    value it guards is present. [dlopen_count] counts the [SharedLibrary]
    objects constructed so far. *)
Record Process : Type := mkProcess {
  aiter_root_dir : option string;
  libs : option (LRUCache string SharedLibrary);
  func_names : option (LRUCache string string);
  dlopen_count : nat
}.

(** The process before any function of the header ran. *)
Definition start : Process := mkProcess None None None 0.

Definition set_aiter_root_dir (r : string) (s : Process) : Process :=
  mkProcess (Some r) (libs s) (func_names s) (dlopen_count s).
Definition set_libs (c : LRUCache string SharedLibrary) (s : Process) : Process :=
  mkProcess (aiter_root_dir s) (Some c) (func_names s) (dlopen_count s).
Definition set_func_names (c : LRUCache string string) (s : Process) : Process :=
  mkProcess (aiter_root_dir s) (libs s) (Some c) (dlopen_count s).
Definition count_dlopen (s : Process) : Process :=
  mkProcess (aiter_root_dir s) (libs s) (func_names s) (S (dlopen_count s)).

(** A function of the header acts on the process state; what it changed
    before it threw stays changed. *)
Definition JIT (A : Type) : Type := Process -> Result A * Process.

Definition jit_ret {A : Type} (a : A) : JIT A := fun s => (Ok a, s).

Definition jit_bind {A B : Type} (m : JIT A) (k : A -> JIT B) : JIT B :=
  fun s =>
    match m s with
    | (Ok a, s') => k a s'
    | (Throw e, s') => (Throw e, s')
    | (Undefined, s') => (Undefined, s')
    end.

Definition jit_throw {A : Type} (e : exn) : JIT A := fun s => (Throw e, s).
Definition jit_undefined {A : Type} : JIT A := fun s => (Undefined, s).

Notation "'do' x <- m ; k" := (jit_bind m (fun x => k))
  (at level 10, x name, m at level 100, k at level 200,
   format "'[v' 'do'  x  <-  m ; '/' k ']'").

(** [init_root_dir]: AITER_ROOT_DIR, else HOME, with [.aiter] appended. A
    path built from a null pointer is undefined behaviour. *)
Definition init_root_dir (w : World) : Result string :=
  match getenv w "AITER_ROOT_DIR" with
  | Some dir => Ok (dir </> ".aiter")
  | None =>
      match getenv w "HOME" with
      | Some home => Ok (home </> ".aiter")
      | None => Undefined
      end
  end.

(** [get_root_dir]: [std::call_once(init_root_dir_flag, init_root_dir)],
    then the stored path. *)
Definition get_root_dir (w : World) : JIT string := fun s =>
  match aiter_root_dir s with
  | Some root => (Ok root, s)
  | None =>
      match init_root_dir w with
      | Ok root => (Ok root, set_aiter_root_dir root s)
      | Throw e => (Throw e, s)
      | Undefined => (Undefined, s)
      end
  end.

(** [std::call_once(init_libs_lru_cache, init_lru_cache<...>, libs)]. *)
Definition call_once_libs (w : World) : JIT unit := fun s =>
  match libs s with
  | Some _ => (Ok (), s)
  | None =>
      match init_lru_cache w with
      | Ok c => (Ok (), set_libs c s)
      | Throw e => (Throw e, s)
      | Undefined => (Undefined, s)
      end
  end.

(** [std::call_once(init_func_names_lru_cache, init_lru_cache<...>, func_names)]. *)
Definition call_once_func_names (w : World) : JIT unit := fun s =>
  match func_names s with
  | Some _ => (Ok (), s)
  | None =>
      match init_lru_cache w with
      | Ok c => (Ok (), set_func_names c s)
      | Throw e => (Throw e, s)
      | Undefined => (Undefined, s)
      end
  end.

(** [libs->get(key)] and [libs->put(key, value)] on the cache the static
    [libs] owns. *)
Definition libs_get (key : string) : JIT (option SharedLibrary) := fun s =>
  match libs s with
  | Some c => let (r, c') := LRUCache_get key c in (Ok r, set_libs c' s)
  | None => (Undefined, s)
  end.

Definition libs_put (key : string) (value : SharedLibrary) : JIT unit := fun s =>
  match libs s with
  | Some c => (Ok (), set_libs (LRUCache_put key value c) s)
  | None => (Undefined, s)
  end.

(** [func_names->get(key)] and [func_names->put(key, value)]. *)
Definition func_names_get (key : string) : JIT (option string) := fun s =>
  match func_names s with
  | Some c => let (r, c') := LRUCache_get key c in (Ok r, set_func_names c' s)
  | None => (Undefined, s)
  end.

Definition func_names_put (key value : string) : JIT unit := fun s =>
  match func_names s with
  | Some c => (Ok (), set_func_names (LRUCache_put key value c) s)
  | None => (Undefined, s)
  end.

(* ===================================================================== *)
(** ** The JIT helper header: SharedLibrary and run_lib                    *)
(* ===================================================================== *)

(** The constructor [SharedLibrary(path)]: [dlopen], and a
    [std::runtime_error] carrying [dlerror()] when it fails. *)
Definition SharedLibrary_new (w : World) (path : string) : JIT SharedLibrary := fun s =>
  match files w !! path with
  | Some (SharedObject symbols) =>
      (Ok (mkLib (dlopen_count s) path symbols), count_dlopen s)
  | Some OtherFile => (Throw (runtime_error (dlerror_rejected path)), s)
  | None => (Throw (runtime_error (dlerror_no_such_file path)), s)
  end.

(** One call through a library: which object was used and which symbol. *)
Record Call : Type := mkCall {
  callee : SharedLibrary;
  entry_point : string
}.

(** [SharedLibrary::call(func_name, args...)]: [getRawFunction] resolves
    the symbol with [dlsym] on the handle and throws a
    [std::runtime_error] carrying [dlerror()] when neither the library nor
    one of its dependencies defines it; the function found is then
    called. *)
Definition SharedLibrary_call (lib : SharedLibrary) (func_name : string) : JIT Call :=
  if bool_decide (func_name ∈ lib_symbols lib)
  then jit_ret (mkCall lib func_name)
  else jit_throw (runtime_error (dlerror_undefined_symbol (lib_path lib) func_name)).

(** [run_lib(func_name, folder, args...)]. Dereferencing the empty result
    of the second [get] is undefined behaviour. *)
Definition run_lib (w : World) (func_name folder : string) : JIT Call :=
  do _ <- call_once_libs w;
  do func_lib <- libs_get func_name;
  do func_lib <-
    match func_lib with
    | Some lib => jit_ret (Some lib)
    | None =>
        do root <- get_root_dir w;
        let lib_path := root </> "build" </> folder </> "lib.so" in
        do lib <- SharedLibrary_new w lib_path;
        do _ <- libs_put func_name lib;
        libs_get func_name
    end;
  match func_lib with
  | Some lib => SharedLibrary_call lib func_name
  | None => jit_undefined
  end.

(** [not_built(folder)]. *)
Definition not_built (w : World) (folder : string) : JIT bool :=
  do root <- get_root_dir w;
  jit_ret (negb (path_exists w (root </> "build" </> folder </> "lib.so"))).

(* ===================================================================== *)
(** ** The JIT helper header: kernel names                                 *)
(* ===================================================================== *)

(** One digest byte as [std::hex << std::setw(2) << std::setfill('0')]
    prints it: two lower-case hexadecimal digits. *)
Definition hex_digit (n : N) : ascii :=
  if (n <? 10)%N then ascii_of_N (48 + n) else ascii_of_N (87 + n).

Definition hex_byte (b : byte) : string :=
  String (hex_digit (Byte.to_N b / 16)) (String (hex_digit (Byte.to_N b mod 16)) "").

Section Names.
(** The digest OpenSSL computes for [EVP_md5()]: the bytes written by
    [EVP_DigestFinal_ex] for the bytes of a string. *)
Variable EVP_md5 : string -> list byte.

(** [hash_signature(signature)]. *)
Definition hash_signature (signature : string) : string :=
  String.concat "" (hex_byte <$> EVP_md5 signature).

(** The canonical string of an argument list:
    [fmt::join(args, "_")], lower-cased in place. *)
Definition args_str (args : list string) : string :=
  transform tolower (String.concat "_" args).

(** [get_default_func_name(md_name, args)]. *)
Definition get_default_func_name (w : World) (md_name : string)
    (args : list string) : JIT string :=
  do _ <- call_once_func_names w;
  let args_str := args_str args in
  do func_name <- func_names_get args_str;
  do func_name <-
    match func_name with
    | Some name => jit_ret (Some name)
    | None =>
        do _ <- func_names_put args_str
                  (md_name +:+ "_" +:+ hash_signature args_str);
        func_names_get args_str
    end;
  match func_name with
  | Some name => jit_ret name
  | None => jit_undefined
  end.
End Names.

(* ===================================================================== *)
(** ** MD5                                                                 *)
(* ===================================================================== *)

(** The MD5 message digest of RFC 1321, the function OpenSSL provides as
    [EVP_md5()]. It instantiates the digest of [hash_signature] where the
    header is run on concrete inputs. *)

Definition add32 (a b : Z) : Z := (a + b) mod 2 ^ 32.

Definition not32 (a : Z) : Z := Z.lxor a (2 ^ 32 - 1).

Definition rotl32 (x c : Z) : Z :=
  Z.lor (Z.shiftl x c mod 2 ^ 32) (Z.shiftr x (32 - c)).

(** The per-round shift amounts. *)
Definition md5_shifts : list Z :=
  [7; 12; 17; 22; 7; 12; 17; 22; 7; 12; 17; 22; 7; 12; 17; 22;
   5; 9; 14; 20; 5; 9; 14; 20; 5; 9; 14; 20; 5; 9; 14; 20;
   4; 11; 16; 23; 4; 11; 16; 23; 4; 11; 16; 23; 4; 11; 16; 23;
   6; 10; 15; 21; 6; 10; 15; 21; 6; 10; 15; 21; 6; 10; 15; 21].

(** The table T of the RFC: the integer part of 2^32 * abs (sin (i + 1)). *)
Definition md5_sines : list Z :=
  [
     3614090360; 3905402710; 606105819; 3250441966;
     4118548399; 1200080426; 2821735955; 4249261313;
     1770035416; 2336552879; 4294925233; 2304563134;
     1804603682; 4254626195; 2792965006; 1236535329;
     4129170786; 3225465664; 643717713; 3921069994;
     3593408605; 38016083; 3634488961; 3889429448;
     568446438; 3275163606; 4107603335; 1163531501;
     2850285829; 4243563512; 1735328473; 2368359562;
     4294588738; 2272392833; 1839030562; 4259657740;
     2763975236; 1272893353; 4139469664; 3200236656;
     681279174; 3936430074; 3572445317; 76029189;
     3654602809; 3873151461; 530742520; 3299628645;
     4096336452; 1126891415; 2878612391; 4237533241;
     1700485571; 2399980690; 4293915773; 2240044497;
     1873313359; 4264355552; 2734768916; 1309151649;
     4149444226; 3174756917; 718787259; 3951481745
  ].

(** One of the 64 operations on the state (A, B, C, D), for the 16 words
    [X] of a block. *)
Definition md5_step (X : list Z) (st : Z * Z * Z * Z) (i : nat) : Z * Z * Z * Z :=
  let '(A, B, C, D) := st in
  let '(F, g) :=
    if (i <? 16)%nat then
      (Z.lor (Z.land B C) (Z.land (not32 B) D), i)
    else if (i <? 32)%nat then
      (Z.lor (Z.land D B) (Z.land (not32 D) C), ((5 * i + 1) mod 16)%nat)
    else if (i <? 48)%nat then
      (Z.lxor (Z.lxor B C) D, ((3 * i + 5) mod 16)%nat)
    else
      (Z.lxor C (Z.lor B (not32 D)), ((7 * i) mod 16)%nat) in
  let sum := add32 (add32 (add32 A F) (md5_sines !!! i)) (X !!! g) in
  (D, add32 B (rotl32 sum (md5_shifts !!! i)), B, C).

(** A 32-bit word from four bytes, least significant first. *)
Definition word_of_bytes (b : list Z) : Z :=
  foldr (fun x acc => x + 256 * acc) 0 b.

(** The [n] low bytes of [z], least significant first. *)
Fixpoint bytes_of_word (n : nat) (z : Z) : list Z :=
  match n with
  | O => []
  | S n' => z mod 256 :: bytes_of_word n' (z / 256)
  end.

Fixpoint words_of_block (n : nat) (b : list Z) : list Z :=
  match n with
  | O => []
  | S n' => word_of_bytes (take 4 b) :: words_of_block n' (drop 4 b)
  end.

Definition md5_block (st : Z * Z * Z * Z) (block : list Z) : Z * Z * Z * Z :=
  let '(A0, B0, C0, D0) := st in
  let '(A, B, C, D) := foldl (md5_step (words_of_block 16 block)) st (seq 0 64) in
  (add32 A0 A, add32 B0 B, add32 C0 C, add32 D0 D).

(** The message followed by the bit 1, zero bits up to 56 modulo 64 bytes,
    and the length in bits as 64 bits, least significant byte first. *)
Definition md5_pad (msg : list Z) : list Z :=
  let len := Z.of_nat (length msg) in
  let zeros := Z.to_nat ((55 - len) mod 64) in
  msg ++ [128] ++ replicate zeros 0 ++ bytes_of_word 8 ((8 * len) mod 2 ^ 64).

Fixpoint md5_blocks (n : nat) (st : Z * Z * Z * Z) (data : list Z) : Z * Z * Z * Z :=
  match n with
  | O => st
  | S n' => md5_blocks n' (md5_block st (take 64 data)) (drop 64 data)
  end.

Definition md5_init : Z * Z * Z * Z :=
  (1732584193, 4023233417, 2562383102, 271733878).

Definition byte_of_Z (z : Z) : byte := byte_of_ascii (ascii_of_N (Z.to_N z)).

Definition md5 (message : string) : list byte :=
  let data := md5_pad (char_code <$> String.list_ascii_of_string message) in
  let '(A, B, C, D) := md5_blocks (length data / 64) md5_init data in
  byte_of_Z <$> (bytes_of_word 4 A ++ bytes_of_word 4 B ++ bytes_of_word 4 C ++ bytes_of_word 4 D).

(* ===================================================================== *)
(** ** Specification-side definitions                                      *)
(* ===================================================================== *)

(** The bucketing rule as the design document words it: 16 for M in
    (1, 16], the next power of two up to 16384, 20480 up to 20480, M itself
    beyond. [2 ^ Z.log2_up M] is the least power of two that is not below
    M. *)
Definition next_power_of_two (M : Z) : Z := 2 ^ Z.log2_up M.

Definition bucket (M : Z) : Z :=
  if (1 <? M) && (M <=? 16) then 16
  else if M <=? 16384 then next_power_of_two M
  else if M <=? 20480 then 20480
  else M.

(** The heuristic as a ladder of guarded variants, read top to bottom. *)
Definition heuristic_ladder (AB D E : DataType)
    : list ((Z -> Z -> Z -> bool) * RowwiseKernel) :=
  [ (fun M N K => K <? 512,
     a8w8_rowwise_256x256x128x64_32x32_4x2_4x64x1_4x64x1_1x32x1x8_8x8x1_1x1_interwave_v1 AB D E);
    (fun M N K => (M <? 64) && (N <? 2048) && (K <? 2048),
     a8w8_rowwise_64x16x16x128_16x16_1x1_8x8x1_8x8x1_1x16x1x4_4x4x1_1x1_interwave_v2 AB D E);
    (fun M N K => (M <? 64) && (K <? 2048),
     a8w8_rowwise_128x16x32x128_16x16_1x1_8x16x1_8x16x1_1x16x1x8_4x4x1_1x1_intrawave_v2 AB D E);
    (fun M N K => (M <? 64) && (N <? 2048),
     a8w8_rowwise_128x32x16x128_16x16_1x1_8x16x1_8x16x1_1x16x1x8_2x2x1_1x1_interwave_v2 AB D E);
    (fun M N K => (M <? 64) && (2048 <? N) && (2048 <? K),
     a8w8_rowwise_64x16x16x256_16x16_1x1_16x4x1_16x4x1_1x16x1x4_4x4x1_1x1_intrawave_v1 AB D E);
    (fun M N K => M <? 64,
     a8w8_rowwise_64x16x16x128_16x16_1x1_8x8x1_8x8x1_1x16x1x4_4x4x1_1x1_interwave_v2 AB D E);
    (fun M N K => K <? 1024,
     a8w8_rowwise_256x128x128x128_32x32_2x2_8x32x1_8x32x1_1x32x1x8_8x8x1_1x1_interwave_v1 AB D E);
    (fun M N K => M <? 1024,
     a8w8_rowwise_256x128x128x128_32x32_2x2_8x32x1_8x32x1_1x32x1x8_8x8x1_1x1_intrawave_v3 AB D E);
    (fun M N K => (1024 <=? M) && (1024 <=? N) && (1024 <=? K),
     a8w8_rowwise_256x256x128x64_32x32_4x2_4x64x1_4x64x1_1x32x1x8_8x8x1_1x1_interwave_v1 AB D E);
    (fun M N K => true,
     a8w8_rowwise_256x224x256x128_16x16_7x8_8x32x1_8x32x1_1x32x1x8_8x8x1_1x2_intrawave_v3 AB D E) ].

(** The variant of the first rung whose guard holds, if any. *)
Fixpoint first_match (ladder : list ((Z -> Z -> Z -> bool) * RowwiseKernel))
    (M N K : Z) : option RowwiseKernel :=
  match ladder with
  | [] => None
  | (guard, kernel) :: rest =>
      if guard M N K then Some kernel else first_match rest M N K
  end.

(** The template arguments [gemm_a8w8] instantiates [rowwise_dispatch] at,
    when the dtypes of the call are a supported combination. *)
Definition instantiation (XQ x_scale Y : Tensor) : option (DataType * DataType * DataType) :=
  let AB := if bool_decide (dtype XQ = Char) then I8 else F8 in
  match dtype Y with
  | Half => Some (AB, if bool_decide (dtype x_scale = Float) then F32 else F16, F16)
  | BFloat16 => Some (AB, if bool_decide (dtype x_scale = Float) then F32 else B16, B16)
  | _ => None
  end.

(** A call passes the dtype checks of [gemm_a8w8]: the three leading
    [TORCH_CHECK]s hold and the output dtype is a supported one. *)
Definition passes_dtype_checks (torch_fp8 : ScalarType)
    (XQ WQ x_scale w_scale Y : Tensor) (bias : option Tensor) : bool :=
  (bool_decide (dtype XQ = Char) || bool_decide (dtype XQ = torch_fp8))
  && bool_decide (dtype XQ = dtype WQ)
  && bool_decide (dtype x_scale = dtype w_scale)
  && match bias with
     | Some b => bool_decide (dtype b = dtype Y)
     | None => true
     end
  && (bool_decide (dtype Y = Half) || bool_decide (dtype Y = BFloat16)).

(** Two characters are the same up to letter case: equal, or the upper-
    and lower-case forms of one ASCII letter (codes 32 apart). *)
Definition is_upper (c : ascii) : bool := (65 <=? char_code c) && (char_code c <=? 90).
Definition is_lower (c : ascii) : bool := (97 <=? char_code c) && (char_code c <=? 122).

Definition same_letter (c d : ascii) : bool :=
  bool_decide (c = d)
  || (is_upper c && is_lower d && (char_code d =? char_code c + 32))
  || (is_lower c && is_upper d && (char_code c =? char_code d + 32)).

(** Two descriptors differ only in letter case. *)
Fixpoint differ_only_in_case (a b : string) : bool :=
  match a, b with
  | EmptyString, EmptyString => true
  | String c a', String d b' => same_letter c d && differ_only_in_case a' b'
  | _, _ => false
  end.

(** The operations a client performs on a cache. *)
Inductive CacheOp (K V : Type) : Type :=
| OpGet (k : K)
| OpPut (k : K) (v : V).
Arguments OpGet {K V} k.
Arguments OpPut {K V} k v.

Definition apply_op {K V : Type} `{EqDecision K} (c : LRUCache K V) (op : CacheOp K V)
    : LRUCache K V :=
  match op with
  | OpGet k => (LRUCache_get k c).2
  | OpPut k v => LRUCache_put k v c
  end.

(** The cache after a sequence of operations, first to last. *)
Definition run_ops {K V : Type} `{EqDecision K} (ops : list (CacheOp K V))
    (c : LRUCache K V) : LRUCache K V :=
  foldl apply_op c ops.

(** What a cache that never evicts holds under a key after a sequence of
    operations: the value of the last [put] under that key. *)
Fixpoint last_put {K V : Type} `{EqDecision K} (k : K) (ops : list (CacheOp K V))
    : option V :=
  match ops with
  | [] => None
  | op :: rest =>
      match last_put k rest with
      | Some v => Some v
      | None =>
          match op with
          | OpPut k' v => if decide (k' = k) then Some v else None
          | OpGet _ => None
          end
      end
  end.

(** No conversion can be performed by [atoi]: after white space and an
    optional sign the text does not continue with a digit. *)
Definition non_numeric (text : string) : bool :=
  match skip_spaces text with
  | EmptyString => true
  | String c rest =>
      if bool_decide (c = "-"%char) || bool_decide (c = "+"%char) then
        match rest with
        | EmptyString => true
        | String d _ => negb (isdigit d)
        end
      else negb (isdigit c)
  end.

(** A home directory with one artifact built: the folder [foo] holds a
    library through which the one name [k_abcd1234] resolves; the folder
    [broken] holds a file the loader rejects; nothing else is built. *)
Definition example_world : World :=
  mkWorld {[ "HOME" := "/home/u" ]}
          {[ "/home/u/.aiter/build/foo/lib.so" := SharedObject ["k_abcd1234"];
             "/home/u/.aiter/build/broken/lib.so" := OtherFile ]}.

(** The same machine with a cache size that is not a number. *)
Definition example_world_unlimited : World :=
  mkWorld {[ "HOME" := "/home/u"; "AITER_MAX_CACHE_SIZE" := "unlimited" ]}
          (files example_world).

(** A lookup table with three tuned shapes, for running the dispatcher on
    concrete inputs. *)
Definition example_lookup_table (AB D E : DataType) : list (ShapeKey * RowwiseKernel) :=
  [ ((16, 1280, 8192),
     a8w8_rowwise_64x16x16x128_16x16_1x1_8x8x1_8x8x1_1x16x1x4_4x4x1_1x1_interwave_v2 AB D E);
    ((512, 1280, 8192),
     a8w8_rowwise_256x128x128x128_32x32_2x2_8x32x1_8x32x1_1x32x1x8_8x8x1_1x1_intrawave_v3 AB D E);
    ((20480, 1280, 8192),
     a8w8_rowwise_256x224x256x128_16x16_7x8_8x32x1_8x32x1_1x32x1x8_8x8x1_1x2_intrawave_v3 AB D E) ].

(** The part of [gemm_a8w8] that does not involve the kernel call: the
    checks, the three extents and the choice of the kernel. *)
Definition select_kernel
    (GENERATE_LOOKUP_TABLE : DataType -> DataType -> DataType -> list (ShapeKey * RowwiseKernel))
    (torch_fp8 : ScalarType) (XQ WQ x_scale w_scale Y : Tensor) (bias : option Tensor)
    : Result RowwiseKernel :=
  _ ← TORCH_CHECK
        ((bool_decide (dtype XQ = Char) || bool_decide (dtype XQ = torch_fp8))
         && bool_decide (dtype XQ = dtype WQ))
        "Weights and activations should both be int8/fp8!";
  _ ← TORCH_CHECK (bool_decide (dtype x_scale = dtype w_scale))
        "Scales should have the same dtype!";
  _ ← match bias with
      | Some b => TORCH_CHECK (bool_decide (dtype b = dtype Y))
                    "Out amd bias should have the same dtype!"
      | None => Ok ()
      end;
  M ← to_int <$> size XQ 0;
  N ← to_int <$> size WQ 0;
  K ← to_int <$> size XQ 1;
  match instantiation XQ x_scale Y with
  | Some (AB, D, E) => rowwise_dispatch GENERATE_LOOKUP_TABLE AB D E M N K
  | None => Throw (c10_Error "Unsupported scales/output dtype!")
  end.

(** A stand-in for the compiled kernels that records the call it received
    and returns its output argument, for running [gemm_a8w8] on concrete
    inputs. The memory is the log of the calls made. *)
Definition recording_kernel (kernel : RowwiseKernel) (args : KernelArgs)
    (log : list (RowwiseKernel * KernelArgs))
    : Result (Tensor * list (RowwiseKernel * KernelArgs)) :=
  Ok (arg_Y args, log ++ [(kernel, args)]).

(** Concrete tensors of a supported call: int8 activations of shape
    4 x 8192 and weights of shape 1280 x 8192, float scales, a bfloat16
    output; and a one-dimensional int8 tensor. *)
Definition example_XQ : Tensor := mkTensor 0 Char [4; 8192].
Definition example_WQ : Tensor := mkTensor 1 Char [1280; 8192].
Definition example_x_scale : Tensor := mkTensor 2 Float [4; 1].
Definition example_w_scale : Tensor := mkTensor 3 Float [1; 1280].
Definition example_Y : Tensor := mkTensor 4 BFloat16 [4; 1280].
Definition example_vector : Tensor := mkTensor 5 Char [8192].

(** The state after a sequence of later [run_lib] calls, each with the
    world it runs in, its identifier and its folder; a call that throws
    leaves the state it reached. *)
Definition run_libs (calls : list (World * string * string)) (s : Process) : Process :=
  foldl (fun s call => (run_lib call.1.1 call.1.2 call.2 s).2) s calls.

(** The library cache of the process is unbounded and holds [lib] under
    [name]. *)
Definition holds_lib (name : string) (lib : SharedLibrary) (s : Process) : Prop :=
  exists c, libs s = Some c /\ capacity c = unbounded
            /\ find_entry name (entries c) = Some lib.

(** The identifier cache can hold at least one entry: it exists with an
    unbounded or positive capacity, or the first use will create one. *)
Definition holds_one (cap : Z) : Prop := cap = unbounded \/ 1 <= cap.

Definition names_ready (w : World) (s : Process) : Prop :=
  match func_names s with
  | Some c => holds_one (capacity c)
  | None => exists c : LRUCache string string,
              init_lru_cache w = Ok c /\ holds_one (capacity c)
  end.

(* ===================================================================== *)
(** ** The rest of the two files                                           *)
(* ===================================================================== *)

Section TupleHash.
(** [std::hash<int>], a value of type [size_t]. *)
Variable std_hash_int : Z -> Z.

(** [IntTupleHash::operator()]: the exclusive or of the three component
    hashes. *)
Definition IntTupleHash (t : ShapeKey) : Z :=
  let hash1 := std_hash_int t.1.1 in
  let hash2 := std_hash_int t.1.2 in
  let hash3 := std_hash_int t.2 in
  Z.lxor (Z.lxor hash1 hash2) hash3.
End TupleHash.

(** Arithmetic on [int]: a result that is no [int] is undefined behaviour,
    and so is a division by zero; the division truncates towards zero. *)
Definition int_result (z : Z) : Result Z :=
  if in_int_range z then Ok z else Undefined.

Definition int_add (x y : Z) : Result Z := int_result (x + y).
Definition int_sub (x y : Z) : Result Z := int_result (x - y).
Definition int_div (x y : Z) : Result Z :=
  if y =? 0 then Undefined else int_result (Z.quot x y).

(** The macro [DIVIDE_ROUND_UP(a, b)], [(((a) + (b)-1) / (b))], on operands
    of type [int]: the sum [a + b], then the difference, then the
    quotient. *)
Definition DIVIDE_ROUND_UP (a b : Z) : Result Z :=
  sum ← int_add a b;
  numerator ← int_sub sum 1;
  int_div numerator b.

(** [fgets(buffer, size, stream)] with [limit = size - 1]: the characters
    stored, up to [limit] of them and through the first newline, and what
    is left of the stream. *)
Fixpoint fgets (limit : nat) (stream : string) : string * string :=
  match limit, stream with
  | S limit', String c rest =>
      if bool_decide (c = "010"%char) then (String c EmptyString, rest)
      else let (stored, left) := fgets limit' rest in (String c stored, left)
  | _, _ => (EmptyString, stream)
  end.

(** A character buffer read as a C string: what precedes the first NUL. *)
Fixpoint c_str (buffer : string) : string :=
  match buffer with
  | EmptyString => EmptyString
  | String c rest =>
      if bool_decide (c = "000"%char) then EmptyString else String c (c_str rest)
  end.

(** The loop [while (fgets(buffer.data(), buffer.size(), pipe) != nullptr)
    result += buffer.data();] over a 128-byte buffer. [fgets] returns null
    at the end of the stream; every other turn consumes a character, so
    [fuel] turns suffice for a stream of that length. *)
Fixpoint read_pipe (fuel : nat) (stream result : string) : string :=
  match fuel with
  | O => result
  | S fuel' =>
      match stream with
      | EmptyString => result
      | String _ _ =>
          let (stored, left) := fgets 127 stream in
          read_pipe fuel' left (result +:+ c_str stored)
      end
  end.

(** [execute_cmd(cmd)]. [popen cmd] is what running the command gives:
    nothing when the pipe cannot be opened, else the bytes the command
    writes to its standard output and the status [pclose] returns. *)
Definition execute_cmd (popen : string -> option (string * Z)) (cmd : string)
    : Result (string * Z) :=
  match popen cmd with
  | None => Throw (runtime_error "popen() failed!")
  | Some (output, status) =>
      Ok (read_pipe (String.length output) output EmptyString, status)
  end.

(** The decimal numeral of a natural number, as a program or a shell
    would write it into the environment. *)
Definition decimal (n : nat) : string :=
  DecimalString.NilZero.string_of_uint (Nat.to_uint n).

(** The text does not go on with a digit. *)
Definition no_digit_ahead (rest : string) : bool :=
  match rest with
  | EmptyString => true
  | String c _ => negb (isdigit c)
  end.

(** The bytes contain a NUL. *)
Fixpoint contains_nul (s : string) : bool :=
  match s with
  | EmptyString => false
  | String c rest => bool_decide (c = "000"%char) || contains_nul rest
  end.

(** Every name the identifier cache holds ends in the digest of the
    canonical string it is stored under. *)
Definition names_keyed (EVP_md5 : string -> list byte) (s : Process) : Prop :=
  forall c key name,
    func_names s = Some c -> (key, name) ∈ entries c ->
    exists md_name, name = md_name +:+ "_" +:+ hash_signature EVP_md5 key.

(* ===================================================================== *)
(** * Part II: properties                                                  *)
(* ===================================================================== *)

(** ** 32-bit conversions *)

Lemma to_int_small (z : Z) : INT_MIN <= z <= INT_MAX -> to_int z = z.
Proof.
  unfold INT_MIN, INT_MAX, to_int. intros Hz.
  rewrite Z.mod_small by lia. lia.
Qed.

Lemma to_unsigned_small (z : Z) : 0 <= z < 2 ^ 32 -> to_unsigned z = z.
Proof. intros Hz. unfold to_unsigned. now apply Z.mod_small. Qed.

(** ** nextPow2 *)

(** On the range [rowwise_dispatch] uses it for, [nextPow2] is the least
    power of two that is not below its argument. *)
Lemma nextPow2_next_power_of_two (num : Z) :
  1 <= num <= 2 ^ 30 -> nextPow2 num = Ok (next_power_of_two num).
Proof.
  intros Hnum. unfold nextPow2, next_power_of_two, builtin_clz.
  destruct (Z.leb_spec num 1) as [Hle | Hgt].
  - assert (num = 1) as -> by lia. reflexivity.
  - rewrite Z.log2_up_eqn by lia.
    replace (Z.pred num) with (num - 1) by lia.
    pose proof (Z.log2_nonneg (num - 1)) as Hnn.
    assert (Z.log2 (num - 1) < 30) as Hlt.
    { apply Z.log2_lt_pow2; lia. }
    replace (8 * 4 - (31 - Z.log2 (num - 1))) with (Z.succ (Z.log2 (num - 1))) by lia.
    destruct (Z.ltb_spec (Z.succ (Z.log2 (num - 1))) 32) as [_ | Hge]; [| lia].
    rewrite Z.shiftl_1_l. f_equal. apply to_int_small.
    unfold INT_MIN, INT_MAX.
    assert (2 ^ Z.succ (Z.log2 (num - 1)) <= 2 ^ 30) by (apply Z.pow_le_mono_r; lia).
    pose proof (Z.pow_pos_nonneg 2 (Z.succ (Z.log2 (num - 1)))). lia.
Qed.

Lemma next_power_of_two_bounds (M : Z) :
  1 <= M -> M <= next_power_of_two M < 2 * M.
Proof.
  intros HM. unfold next_power_of_two.
  destruct (Z.eq_dec M 1) as [-> | Hne]; [cbn; lia |].
  pose proof (Z.log2_up_spec M ltac:(lia)) as [Hlo Hhi].
  split; [exact Hhi |].
  assert (0 < Z.log2_up M) by (apply Z.log2_up_pos; lia).
  replace (Z.log2_up M) with (Z.succ (Z.pred (Z.log2_up M))) by lia.
  rewrite Z.pow_succ_r by lia. lia.
Qed.

(** No smaller power of two reaches [M]. *)
Lemma next_power_of_two_least (M e : Z) :
  1 <= M -> 0 <= e -> M <= 2 ^ e -> next_power_of_two M <= 2 ^ e.
Proof.
  intros HM He Hle. unfold next_power_of_two.
  apply Z.pow_le_mono_r; [lia |].
  destruct (Z.eq_dec M 1) as [-> | Hne]; [cbn; lia |].
  apply Z.log2_up_le_pow2; lia.
Qed.

(** ** The bucketing of M *)

Lemma padded_m_bucket (M : Z) : 1 <= M -> padded_m M = Ok (bucket M).
Proof.
  intros HM. unfold padded_m, bucket.
  destruct ((1 <? M) && (M <=? 16)); [reflexivity |].
  destruct (Z.leb_spec M 16384) as [Hle | Hgt]; [| now destruct (M <=? 20480)].
  rewrite to_unsigned_small by lia.
  apply nextPow2_next_power_of_two. lia.
Qed.

Lemma padded_m_zero : padded_m 0 = Ok 1.
Proof. reflexivity. Qed.

Lemma bucket_ge (M : Z) : 1 <= M -> M <= bucket M.
Proof.
  intros HM. unfold bucket.
  destruct (Z.ltb_spec 1 M), (Z.leb_spec M 16); cbn [andb]; try lia;
    destruct (Z.leb_spec M 16384); try (pose proof (next_power_of_two_bounds M); lia);
    destruct (Z.leb_spec M 20480); lia.
Qed.

(** ** rowwise_dispatch *)

Section DispatchProperties.
Variable GENERATE_LOOKUP_TABLE :
  DataType -> DataType -> DataType -> list (ShapeKey * RowwiseKernel).
Variables ABDataType DDataType EDataType : DataType.

Local Abbreviation table := (lookup GENERATE_LOOKUP_TABLE ABDataType DDataType EDataType).
Local Abbreviation dispatch :=
  (rowwise_dispatch GENERATE_LOOKUP_TABLE ABDataType DDataType EDataType).
Local Abbreviation heuristic :=
  (rowwise_heuristic_dispatch ABDataType DDataType EDataType).

(** The dispatcher in terms of the bucketing rule: exact entry, else the
    entry of the bucket, else the heuristic on the shape as given. *)
Lemma rowwise_dispatch_unfold (M N K : Z) :
  1 <= M ->
  dispatch M N K =
    Ok (match table !! (M, N, K) with
        | Some kernel => kernel
        | None =>
            match table !! (bucket M, N, K) with
            | Some kernel => kernel
            | None => heuristic M N K
            end
        end).
Proof.
  intros HM. unfold rowwise_dispatch.
  destruct (table !! (M, N, K)); [reflexivity |].
  rewrite padded_m_bucket by exact HM. cbn.
  now destruct (table !! (bucket M, N, K)).
Qed.

(** C2. For every (M, N, K) that is a key of the exact lookup table,
    [rowwise_dispatch] returns the kernel the table holds under that key:
    the first lookup decides, before any padding or heuristic, and the
    kernel is one of the entries the table was generated from. *)
Theorem rowwise_dispatch_exact_hit (M N K : Z) (kernel : RowwiseKernel) :
  table !! (M, N, K) = Some kernel ->
  dispatch M N K = Ok kernel
  /\ ((M, N, K), kernel) ∈ GENERATE_LOOKUP_TABLE ABDataType DDataType EDataType.
Proof.
  intros Hhit. split.
  - unfold rowwise_dispatch. now rewrite Hhit.
  - now apply elem_of_list_to_map_2.
Qed.

(** C3. For every positive M whose exact lookup misses, the padded M is
    the bucket of the design document (16 on (1, 16]; the next power of
    two up to 16384; 20480 up to 20480; M beyond), it is never smaller
    than M, and the lookup is retried under (padded M, N, K): a hit there
    is the result. In particular M = 5 resolves under 16, M = 300 under
    512 and M = 18000 under 20480. *)
Theorem rowwise_dispatch_bucketing (N K : Z) :
  (forall M, 1 <= M -> table !! (M, N, K) = None ->
     padded_m M = Ok (bucket M)
     /\ M <= bucket M
     /\ (1 < M <= 16 -> bucket M = 16)
     /\ (M = 1 \/ 16 < M <= 16384 ->
         (exists e, 0 <= e /\ bucket M = 2 ^ e)
         /\ (forall e, 0 <= e -> M <= 2 ^ e -> bucket M <= 2 ^ e))
     /\ (16384 < M <= 20480 -> bucket M = 20480)
     /\ (20480 < M -> bucket M = M)
     /\ (forall kernel, table !! (bucket M, N, K) = Some kernel ->
         dispatch M N K = Ok kernel))
  /\ (forall kernel, table !! (5, N, K) = None ->
        table !! (16, N, K) = Some kernel -> dispatch 5 N K = Ok kernel)
  /\ (forall kernel, table !! (300, N, K) = None ->
        table !! (512, N, K) = Some kernel -> dispatch 300 N K = Ok kernel)
  /\ (forall kernel, table !! (18000, N, K) = None ->
        table !! (20480, N, K) = Some kernel -> dispatch 18000 N K = Ok kernel).
Proof.
  assert (forall M kernel, 1 <= M -> table !! (M, N, K) = None ->
            table !! (bucket M, N, K) = Some kernel -> dispatch M N K = Ok kernel)
    as Hretry.
  { intros M kernel HM Hmiss Hhit.
    rewrite rowwise_dispatch_unfold by exact HM. now rewrite Hmiss, Hhit. }
  split; [| repeat split].
  - intros M HM Hmiss. repeat split.
    + now apply padded_m_bucket.
    + now apply bucket_ge.
    + intros [H1 H16]. unfold bucket.
      destruct (Z.ltb_spec 1 M); [| lia]. destruct (Z.leb_spec M 16); [| lia].
      reflexivity.
    + exists (Z.log2_up M). split; [apply Z.log2_up_nonneg |].
      unfold bucket.
      destruct H as [-> | [H16 Hle]]; [reflexivity |].
      destruct (Z.leb_spec M 16); [lia |]. rewrite andb_false_r.
      destruct (Z.leb_spec M 16384); [reflexivity | lia].
    + intros e He Hreach.
      assert (bucket M = next_power_of_two M) as ->.
      { unfold bucket. destruct H as [-> | [H16 Hle]]; [reflexivity |].
        destruct (Z.leb_spec M 16); [lia |]. rewrite andb_false_r.
        destruct (Z.leb_spec M 16384); [reflexivity | lia]. }
      now apply next_power_of_two_least.
    + intros [Hlo Hhi]. unfold bucket.
      destruct (Z.leb_spec M 16); [lia |]. rewrite andb_false_r.
      destruct (Z.leb_spec M 16384); [lia |].
      destruct (Z.leb_spec M 20480); [reflexivity | lia].
    + intros Hbig. unfold bucket.
      destruct (Z.leb_spec M 16); [lia |]. rewrite andb_false_r.
      destruct (Z.leb_spec M 16384); [lia |].
      destruct (Z.leb_spec M 20480); [lia | reflexivity].
    + intros kernel. now apply Hretry.
  - intros kernel Hmiss Hhit. apply (Hretry 5); [lia | exact Hmiss | exact Hhit].
  - intros kernel Hmiss Hhit. apply (Hretry 300); [lia | exact Hmiss | exact Hhit].
  - intros kernel Hmiss Hhit. apply (Hretry 18000); [lia | exact Hmiss | exact Hhit].
Qed.

(** The ladder never runs out of rungs, and the code takes the first rung
    whose guard holds. *)
Lemma rowwise_heuristic_dispatch_first_match (M N K : Z) :
  first_match (heuristic_ladder ABDataType DDataType EDataType) M N K
  = Some (heuristic M N K).
Proof.
  unfold rowwise_heuristic_dispatch, heuristic_ladder, first_match.
  repeat match goal with
         | |- context [if ?b then _ else _] => destruct b
         end; reflexivity.
Qed.

(** C4. For every (M, N, K) with M, N, K >= 1 the dispatcher returns
    exactly one kernel variant. The heuristic ladder is total: read as a
    list of guarded rungs, the first rung whose guard holds exists and is
    the variant the code returns, and it is the result whenever both
    lookups miss. *)
Theorem rowwise_dispatch_total (M N K : Z) :
  1 <= M -> 1 <= N -> 1 <= K ->
  (exists! kernel, dispatch M N K = Ok kernel)
  /\ first_match (heuristic_ladder ABDataType DDataType EDataType) M N K
     = Some (heuristic M N K)
  /\ (table !! (M, N, K) = None -> table !! (bucket M, N, K) = None ->
      dispatch M N K = Ok (heuristic M N K)).
Proof.
  intros HM HN HK. rewrite rowwise_dispatch_unfold by exact HM.
  split; [| split].
  - eexists. split; [reflexivity |]. intros kernel' Heq. now injection Heq.
  - apply rowwise_heuristic_dispatch_first_match.
  - intros Hmiss1 Hmiss2. now rewrite Hmiss1, Hmiss2.
Qed.
End DispatchProperties.

(** ** std::pow(2, splitK) as an int *)

Lemma Qpower_positive_two (p : positive) :
  Qpower_positive (2 # 1) p = Qmake (2 ^ Zpos p) 1.
Proof.
  unfold Qpower_positive.
  induction p as [p IH | p IH |]; cbn [pow_pos].
  - rewrite IH. unfold Qmult; cbn [Qnum Qden]. f_equal.
    replace (Zpos p~1) with (Zpos p + Zpos p + 1) by lia.
    rewrite !Z.pow_add_r by lia. ring.
  - rewrite IH. unfold Qmult; cbn [Qnum Qden]. f_equal.
    replace (Zpos p~0) with (Zpos p + Zpos p) by lia.
    rewrite Z.pow_add_r by lia. ring.
  - reflexivity.
Qed.

Lemma double_to_int_pow2 (e : Z) :
  0 <= e <= 30 -> double_to_int (std_pow2 e) = Ok (2 ^ e).
Proof.
  intros He. unfold double_to_int, std_pow2.
  assert (Z.quot (Qnum (Qpower (2 # 1) e)) (Zpos (Qden (Qpower (2 # 1) e))) = 2 ^ e) as ->.
  { destruct e as [| p | p]; [reflexivity | | lia].
    cbn [Qpower]. rewrite Qpower_positive_two. cbn [Qnum Qden].
    rewrite Z.quot_1_r. lia. }
  assert (0 < 2 ^ e <= 2 ^ 30) as Hrange.
  { split; [apply Z.pow_pos_nonneg; lia | apply Z.pow_le_mono_r; lia]. }
  unfold in_int_range, INT_MIN, INT_MAX.
  destruct (Z.leb_spec (- 2 ^ 31) (2 ^ e)), (Z.leb_spec (2 ^ e) (2 ^ 31 - 1));
    cbn [andb]; try reflexivity; lia.
Qed.

Lemma double_to_int_pow2_negative (e : Z) :
  e < 0 -> double_to_int (std_pow2 e) = Ok 0.
Proof.
  intros He. unfold double_to_int, std_pow2.
  destruct e as [| p | p]; [lia | lia |].
  cbn [Qpower]. rewrite Qpower_positive_two. unfold Qinv. cbn [Qnum].
  assert (1 < 2 ^ Zpos p) as Hgt by (apply Z.pow_gt_1; lia).
  destruct (2 ^ Zpos p) as [| q | q] eqn:Hpow; [lia | | lia].
  cbn [Qnum Qden]. rewrite Z.quot_small; [reflexivity | lia].
Qed.

Lemma double_to_int_pow2_overflow (e : Z) :
  30 < e -> double_to_int (std_pow2 e) = Undefined.
Proof.
  intros He. unfold double_to_int, std_pow2.
  destruct e as [| p | p]; [lia | | lia].
  cbn [Qpower]. rewrite Qpower_positive_two. cbn [Qnum Qden].
  rewrite Z.quot_1_r.
  assert (2 ^ 31 <= 2 ^ Zpos p) by (apply Z.pow_le_mono_r; lia).
  unfold in_int_range, INT_MIN, INT_MAX.
  destruct (Z.leb_spec (2 ^ Zpos p) (2 ^ 31 - 1)); [lia |].
  now rewrite andb_false_r.
Qed.

(** ** gemm_a8w8 *)

Section GemmProperties.
Variable GENERATE_LOOKUP_TABLE :
  DataType -> DataType -> DataType -> list (ShapeKey * RowwiseKernel).
Variable torch_fp8 : ScalarType.
Variable Memory : Type.
Variable invoke : RowwiseKernel -> KernelArgs -> Memory -> Result (Tensor * Memory).

Local Abbreviation gemm := (gemm_a8w8 GENERATE_LOOKUP_TABLE torch_fp8 Memory invoke).
Local Abbreviation selection := (select_kernel GENERATE_LOOKUP_TABLE torch_fp8).

(** Once the exponent converts, [gemm_a8w8] is: choose the kernel, call it
    once on the caller's tensors and the converted split, return [Y]. *)
Lemma gemm_a8w8_factor (XQ WQ x_scale w_scale Y : Tensor) (bias : option Tensor)
    (splitK KBatch : Z) (mem : Memory) :
  double_to_int (std_pow2 splitK) = Ok KBatch ->
  gemm XQ WQ x_scale w_scale Y bias splitK mem =
    (kernel ← selection XQ WQ x_scale w_scale Y bias;
     r ← invoke kernel (mkArgs XQ WQ x_scale w_scale Y bias KBatch) mem;
     Ok (Y, r.2)).
Proof.
  intros HK. unfold gemm_a8w8, select_kernel.
  destruct (TORCH_CHECK _ "Weights and activations should both be int8/fp8!");
    [cbn [mbind Result_bind] | reflexivity | reflexivity].
  destruct (TORCH_CHECK _ "Scales should have the same dtype!");
    [cbn [mbind Result_bind] | reflexivity | reflexivity].
  destruct (match bias with Some _ => _ | None => _ end);
    [cbn [mbind Result_bind] | reflexivity | reflexivity].
  destruct (size XQ 0); [cbn | reflexivity | reflexivity].
  destruct (size WQ 0); [cbn | reflexivity | reflexivity].
  destruct (size XQ 1); [cbn | reflexivity | reflexivity].
  rewrite HK. cbn [mbind Result_bind].
  unfold instantiation, dispatch_and_run.
  destruct (bool_decide (dtype XQ = Char)), (bool_decide (dtype x_scale = Float));
    cbn [andb]; destruct (dtype Y);
    repeat case_bool_decide; try congruence; try reflexivity;
    match goal with
    | |- context [rowwise_dispatch ?t ?a ?b ?c ?m ?n ?k] =>
        destruct (rowwise_dispatch t a b c m n k); cbn; try reflexivity
    end;
    match goal with
    | |- context [invoke ?k ?a ?m] => destruct (invoke k a m); reflexivity
    end.
Qed.
(** On a well-shaped call that passes the dtype checks a kernel is chosen:
    the dispatcher is defined on every non-negative M. *)
Lemma padded_m_defined (M : Z) : 0 <= M -> exists pm, padded_m M = Ok pm.
Proof.
  intros HM. destruct (Z.eq_dec M 0) as [-> | Hne].
  - exists 1. reflexivity.
  - exists (bucket M). apply padded_m_bucket. lia.
Qed.

Lemma rowwise_dispatch_defined (AB D E : DataType) (M N K : Z) :
  0 <= M -> exists kernel, rowwise_dispatch GENERATE_LOOKUP_TABLE AB D E M N K = Ok kernel.
Proof.
  intros HM. unfold rowwise_dispatch.
  destruct (lookup _ _ _ _ !! (M, N, K)); [eauto |].
  destruct (padded_m_defined M HM) as [pm ->]. cbn.
  destruct (lookup _ _ _ _ !! (pm, N, K)); eauto.
Qed.

Lemma select_kernel_defined (XQ WQ x_scale w_scale Y : Tensor) (bias : option Tensor)
    (m k n : Z) (rest rest' : list Z) :
  passes_dtype_checks torch_fp8 XQ WQ x_scale w_scale Y bias = true ->
  sizes XQ = m :: k :: rest -> sizes WQ = n :: rest' -> 0 <= m <= INT_MAX ->
  exists kernel, selection XQ WQ x_scale w_scale Y bias = Ok kernel.
Proof.
  unfold passes_dtype_checks. rewrite !andb_true_iff.
  intros [[[[H1 H2] H3] H4] H5] HXQ HWQ Hm.
  unfold select_kernel, size. rewrite HXQ, HWQ. cbn [stdpp.base.lookup list_lookup].
  rewrite H1, H2, H3. cbn.
  assert (match bias with
          | Some b => TORCH_CHECK (bool_decide (dtype b = dtype Y))
                        "Out amd bias should have the same dtype!"
          | None => Ok ()
          end = Ok ()) as ->.
  { destruct bias; [now rewrite H4 | reflexivity]. }
  cbn. rewrite to_int_small by (unfold INT_MIN, INT_MAX in *; lia).
  unfold instantiation.
  apply orb_true_iff in H5 as [HY | HY]; apply bool_decide_eq_true_1 in HY;
    rewrite HY; apply rowwise_dispatch_defined; lia.
Qed.

(** What a returning call did: it chose a kernel, called it on the
    caller's tensors, and returned [Y]. *)
Lemma gemm_a8w8_inversion (XQ WQ x_scale w_scale Y : Tensor) (bias : option Tensor)
    (splitK : Z) (mem mem' : Memory) (r : Tensor) :
  gemm XQ WQ x_scale w_scale Y bias splitK mem = Ok (r, mem') ->
  r = Y
  /\ exists kernel KBatch r0,
       double_to_int (std_pow2 splitK) = Ok KBatch
       /\ selection XQ WQ x_scale w_scale Y bias = Ok kernel
       /\ invoke kernel (mkArgs XQ WQ x_scale w_scale Y bias KBatch) mem = Ok (r0, mem').
Proof.
  destruct (double_to_int (std_pow2 splitK)) as [KBatch | e |] eqn:HK.
  - rewrite (gemm_a8w8_factor _ _ _ _ _ _ _ _ _ HK).
    destruct (selection XQ WQ x_scale w_scale Y bias) as [kernel | |];
      cbn [mbind Result_bind]; [| discriminate | discriminate].
    destruct (invoke kernel _ mem) as [[r0 m0] | |] eqn:Hcall;
      cbn [mbind Result_bind]; [| discriminate | discriminate].
    intros [= <- <-]. split; [reflexivity |]. now exists kernel, KBatch, r0.
  - unfold double_to_int in HK. now destruct (in_int_range _).
  - unfold gemm_a8w8. rewrite HK.
    repeat match goal with
           | |- (?m ≫= _) = _ -> _ =>
               destruct m; cbn [mbind Result_bind]; try discriminate
           end.
Qed.

(** C9, amended. For every call that passes its dtype checks and returns,
    the value returned is the caller's output tensor [Y] itself, after the
    selected kernel ran once with [Y] as its output argument; and such a
    call does return when [XQ] has the two dimensions and [WQ] the one
    dimension the function reads, the split is at most 30, and the kernels
    return. *)
Theorem gemm_a8w8_returns_Y (XQ WQ x_scale w_scale Y : Tensor) (bias : option Tensor)
    (splitK : Z) (mem : Memory) :
  passes_dtype_checks torch_fp8 XQ WQ x_scale w_scale Y bias = true ->
  (forall r mem',
     gemm XQ WQ x_scale w_scale Y bias splitK mem = Ok (r, mem') ->
     r = Y
     /\ exists kernel KBatch r0,
          selection XQ WQ x_scale w_scale Y bias = Ok kernel
          /\ arg_Y (mkArgs XQ WQ x_scale w_scale Y bias KBatch) = Y
          /\ invoke kernel (mkArgs XQ WQ x_scale w_scale Y bias KBatch) mem = Ok (r0, mem'))
  /\ (forall m k n rest rest',
       sizes XQ = m :: k :: rest -> sizes WQ = n :: rest' ->
       0 <= m <= INT_MAX -> splitK <= 30 ->
       (forall kernel args, exists r0 mem', invoke kernel args mem = Ok (r0, mem')) ->
       exists mem', gemm XQ WQ x_scale w_scale Y bias splitK mem = Ok (Y, mem')).
Proof.
  intros Hpass. split.
  - intros r mem' Hret.
    apply gemm_a8w8_inversion in Hret as (-> & kernel & KBatch & r0 & _ & Hsel & Hcall).
    split; [reflexivity |]. now exists kernel, KBatch, r0.
  - intros m k n rest rest' HXQ HWQ Hm Hsplit Hkernels.
    destruct (select_kernel_defined _ _ _ _ _ _ _ _ _ _ _ Hpass HXQ HWQ Hm)
      as [kernel Hsel].
    assert (exists KBatch, double_to_int (std_pow2 splitK) = Ok KBatch) as [KBatch HK].
    { destruct (Z.le_gt_cases 0 splitK).
      - exists (2 ^ splitK). apply double_to_int_pow2. lia.
      - exists 0. now apply double_to_int_pow2_negative. }
    destruct (Hkernels kernel (mkArgs XQ WQ x_scale w_scale Y bias KBatch))
      as (r0 & mem' & Hcall).
    exists mem'. rewrite (gemm_a8w8_factor _ _ _ _ _ _ _ _ _ HK), Hsel.
    cbn [mbind Result_bind]. now rewrite Hcall.
Qed.
End GemmProperties.

(** For a split beyond 30 the conversion of [std::pow(2, splitK)] to [int]
    is undefined: no call returns. *)
Lemma gemm_a8w8_split_overflow table torch_fp8 Memory invoke
    (XQ WQ x_scale w_scale Y : Tensor) (bias : option Tensor) (splitK : Z)
    (mem : Memory) (result : Tensor * Memory) :
  30 < splitK ->
  gemm_a8w8 table torch_fp8 Memory invoke XQ WQ x_scale w_scale Y bias splitK mem
  <> Ok result.
Proof.
  intros Hbig Hret. destruct result as [r mem'].
  apply gemm_a8w8_inversion in Hret as (_ & kernel & KBatch & r0 & HK & _).
  now rewrite double_to_int_pow2_overflow in HK.
Qed.

(** C10, amended. For every call whose [splitK] is at most 30, the split
    forwarded to the selected kernel is 2 ^ splitK when splitK is not
    negative, and 0 (the integer part of 2 ^ splitK) when it is: whatever
    the kernels do, the call is the kernel choice followed by one kernel
    call with that value. *)
Theorem gemm_a8w8_forwards_split table torch_fp8
    (XQ WQ x_scale w_scale Y : Tensor) (bias : option Tensor) (splitK : Z) :
  splitK <= 30 ->
  exists choice : Result RowwiseKernel,
    forall Memory invoke (mem : Memory),
      gemm_a8w8 table torch_fp8 Memory invoke XQ WQ x_scale w_scale Y bias splitK mem =
        (kernel ← choice;
         r ← invoke kernel
               (mkArgs XQ WQ x_scale w_scale Y bias
                       (if 0 <=? splitK then 2 ^ splitK else 0)) mem;
         Ok (Y, r.2)).
Proof.
  intros Hsplit.
  exists (select_kernel table torch_fp8 XQ WQ x_scale w_scale Y bias).
  intros Memory invoke mem. apply gemm_a8w8_factor.
  destruct (Z.leb_spec 0 splitK).
  - apply double_to_int_pow2. lia.
  - now apply double_to_int_pow2_negative.
Qed.

Lemma gemm_a8w8_forwards_split_witness :
  exists choice : Result RowwiseKernel,
    forall Memory invoke (mem : Memory),
      gemm_a8w8 example_lookup_table Float8_e4m3fnuz Memory invoke
        example_XQ example_WQ example_x_scale example_w_scale example_Y None 3 mem =
        (kernel ← choice;
         r ← invoke kernel
               (mkArgs example_XQ example_WQ example_x_scale example_w_scale
                       example_Y None 8) mem;
         Ok (example_Y, r.2)).
Proof.
  exact (gemm_a8w8_forwards_split example_lookup_table Float8_e4m3fnuz
           example_XQ example_WQ example_x_scale example_w_scale example_Y None 3
           ltac:(lia)).
Defined.

(** C10 as stated fails for a negative [splitK]: with splitK = -1 the
    kernel receives 0, while 2 ^ -1 is one half. *)
Lemma gemm_a8w8_negative_split :
  gemm_a8w8 example_lookup_table Float8_e4m3fnuz _ recording_kernel
    example_XQ example_WQ example_x_scale example_w_scale example_Y None (-1) []
  = Ok (example_Y,
        [(a8w8_rowwise_64x16x16x128_16x16_1x1_8x8x1_8x8x1_1x16x1x4_4x4x1_1x1_interwave_v2
            I8 F32 B16,
          mkArgs example_XQ example_WQ example_x_scale example_w_scale example_Y None 0)])
  /\ (std_pow2 (-1) == 1 # 2)%Q
  /\ ~ (inject_Z 0 == std_pow2 (-1))%Q.
Proof.
  split; [vm_compute; reflexivity |].
  split; [reflexivity |]. intros Heq. discriminate Heq.
Qed.

(** C9 as stated fails on a call that passes the dtype checks with a
    one-dimensional [XQ]: reading its second extent throws, no kernel runs
    and nothing is returned. *)
Lemma gemm_a8w8_one_dimensional :
  passes_dtype_checks Float8_e4m3fnuz example_vector example_WQ example_x_scale
    example_w_scale example_Y None = true
  /\ gemm_a8w8 example_lookup_table Float8_e4m3fnuz _ recording_kernel
       example_vector example_WQ example_x_scale example_w_scale example_Y None 0 []
     = Throw (c10_IndexError "Dimension out of range").
Proof. split; vm_compute; reflexivity. Qed.

Lemma gemm_a8w8_returns_Y_witness :
  passes_dtype_checks Float8_e4m3fnuz example_XQ example_WQ example_x_scale
    example_w_scale example_Y None = true
  /\ exists log,
       gemm_a8w8 example_lookup_table Float8_e4m3fnuz _ recording_kernel
         example_XQ example_WQ example_x_scale example_w_scale example_Y None 0 []
       = Ok (example_Y, log).
Proof.
  split; [reflexivity |].
  destruct (gemm_a8w8_returns_Y example_lookup_table Float8_e4m3fnuz _ recording_kernel
              example_XQ example_WQ example_x_scale example_w_scale example_Y None 0 []
              eq_refl) as [_ Hreturns].
  apply (Hreturns 4 8192 1280 [] [8192]);
    [reflexivity | reflexivity | unfold INT_MAX; lia | lia |].
  intros kernel args. eexists _, _. reflexivity.
Defined.

(** ** The dispatcher on a concrete table *)

Lemma rowwise_dispatch_exact_hit_witness :
  lookup example_lookup_table I8 F32 F16 !! (16, 1280, 8192)
  = Some (a8w8_rowwise_64x16x16x128_16x16_1x1_8x8x1_8x8x1_1x16x1x4_4x4x1_1x1_interwave_v2
            I8 F32 F16)
  /\ rowwise_dispatch example_lookup_table I8 F32 F16 16 1280 8192
     = Ok (a8w8_rowwise_64x16x16x128_16x16_1x1_8x8x1_8x8x1_1x16x1x4_4x4x1_1x1_interwave_v2
             I8 F32 F16)
  /\ rowwise_heuristic_dispatch I8 F32 F16 16 1280 8192
     = a8w8_rowwise_128x32x16x128_16x16_1x1_8x16x1_8x16x1_1x16x1x8_2x2x1_1x1_interwave_v2
         I8 F32 F16.
Proof.
  split; [reflexivity |]. split; [| reflexivity].
  apply (rowwise_dispatch_exact_hit example_lookup_table I8 F32 F16 16 1280 8192).
  reflexivity.
Defined.

Lemma rowwise_dispatch_bucketing_witness :
  rowwise_dispatch example_lookup_table I8 F32 F16 5 1280 8192
  = Ok (a8w8_rowwise_64x16x16x128_16x16_1x1_8x8x1_8x8x1_1x16x1x4_4x4x1_1x1_interwave_v2
          I8 F32 F16)
  /\ rowwise_dispatch example_lookup_table I8 F32 F16 300 1280 8192
     = Ok (a8w8_rowwise_256x128x128x128_32x32_2x2_8x32x1_8x32x1_1x32x1x8_8x8x1_1x1_intrawave_v3
             I8 F32 F16)
  /\ rowwise_dispatch example_lookup_table I8 F32 F16 18000 1280 8192
     = Ok (a8w8_rowwise_256x224x256x128_16x16_7x8_8x32x1_8x32x1_1x32x1x8_8x8x1_1x2_intrawave_v3
             I8 F32 F16)
  /\ padded_m 300 = Ok 512.
Proof.
  destruct (rowwise_dispatch_bucketing example_lookup_table I8 F32 F16 1280 8192)
    as (Hgeneral & H5 & H300 & H18000).
  split; [apply H5; reflexivity |].
  split; [apply H300; reflexivity |].
  split; [apply H18000; reflexivity |].
  apply (Hgeneral 300); [lia | reflexivity].
Defined.

Lemma rowwise_dispatch_total_witness :
  (exists! kernel,
     rowwise_dispatch example_lookup_table I8 F32 F16 100 4096 4096 = Ok kernel)
  /\ first_match (heuristic_ladder I8 F32 F16) 100 4096 4096
     = Some (rowwise_heuristic_dispatch I8 F32 F16 100 4096 4096)
  /\ (lookup example_lookup_table I8 F32 F16 !! (100, 4096, 4096) = None ->
      lookup example_lookup_table I8 F32 F16 !! (bucket 100, 4096, 4096) = None ->
      rowwise_dispatch example_lookup_table I8 F32 F16 100 4096 4096
      = Ok (rowwise_heuristic_dispatch I8 F32 F16 100 4096 4096)).
Proof.
  apply (rowwise_dispatch_total example_lookup_table I8 F32 F16 100 4096 4096); lia.
Defined.

(* ===================================================================== *)
(** ** LRUCache                                                            *)
(* ===================================================================== *)

Section LRUProperties.
Context {K V : Type} `{EqDecision K}.
Implicit Types (c : LRUCache K V) (l : list (K * V)) (k : K) (v : V).

Lemma find_entry_drop_entry_same k l : find_entry k (drop_entry k l) = None.
Proof.
  induction l as [| [k' v'] l IH]; [reflexivity |]. cbn.
  destruct (decide (k' = k)) as [-> | Hne]; [exact IH |].
  cbn. now rewrite decide_False.
Qed.

Lemma find_entry_drop_entry_other k k' l :
  k' <> k -> find_entry k' (drop_entry k l) = find_entry k' l.
Proof.
  intros Hne. induction l as [| [k0 v0] l IH]; [reflexivity |]. cbn.
  destruct (decide (k0 = k)) as [-> | Hk0].
  - rewrite IH. now rewrite decide_False by congruence.
  - cbn. now rewrite IH.
Qed.

Lemma drop_entry_idempotent k l : drop_entry k (drop_entry k l) = drop_entry k l.
Proof.
  induction l as [| [k' v'] l IH]; [reflexivity |]. cbn.
  destruct (decide (k' = k)) as [-> | Hne]; [exact IH |].
  cbn. rewrite decide_False by exact Hne. now rewrite IH.
Qed.

(** A lookup never changes what the cache holds, nor its capacity. *)
Lemma LRUCache_get_capacity k c : capacity (LRUCache_get k c).2 = capacity c.
Proof. unfold LRUCache_get. now destruct (find_entry k (entries c)). Qed.

Lemma LRUCache_get_result k c : (LRUCache_get k c).1 = find_entry k (entries c).
Proof. unfold LRUCache_get. now destruct (find_entry k (entries c)). Qed.

Lemma LRUCache_get_find k k' c :
  find_entry k' (entries (LRUCache_get k c).2) = find_entry k' (entries c).
Proof.
  unfold LRUCache_get. destruct (find_entry k (entries c)) as [v |] eqn:Hk; [| reflexivity].
  cbn. destruct (decide (k = k')) as [<- | Hne]; [now rewrite Hk |].
  apply find_entry_drop_entry_other. congruence.
Qed.

(** A key that was just found is found again, and the second lookup
    changes nothing: the key already is the most recent one. *)
Lemma LRUCache_get_hit_again k c v c' :
  LRUCache_get k c = (Some v, c') -> LRUCache_get k c' = (Some v, c').
Proof.
  unfold LRUCache_get. destruct (find_entry k (entries c)) as [v0 |]; [| discriminate].
  intros [= <- <-]. cbn. rewrite !decide_True by reflexivity. cbn.
  now rewrite drop_entry_idempotent.
Qed.

Lemma LRUCache_get_miss k c c' r :
  LRUCache_get k c = (r, c') -> find_entry k (entries c) = None -> r = None /\ c' = c.
Proof. unfold LRUCache_get. intros Hget Hmiss. rewrite Hmiss in Hget. now injection Hget. Qed.

(** An unbounded cache keeps everything that is put. *)
Lemma LRUCache_put_unbounded k v c :
  capacity c = unbounded ->
  capacity (LRUCache_put k v c) = unbounded
  /\ forall k', find_entry k' (entries (LRUCache_put k v c))
                = if decide (k = k') then Some v else find_entry k' (entries c).
Proof.
  intros Hcap. unfold LRUCache_put, evict. cbn [capacity entries].
  rewrite Hcap. cbn [is_unbounded unbounded Z.leb Z.compare]. split; [reflexivity |].
  intros k'. cbn. destruct (decide (k = k')) as [Heq | Hne]; [reflexivity |].
  apply find_entry_drop_entry_other. congruence.
Qed.

(** A cache without a bound keeps everything that is put. *)
Lemma LRUCache_put_no_bound k v c :
  is_unbounded (capacity c) = true ->
  capacity (LRUCache_put k v c) = capacity c
  /\ forall k', find_entry k' (entries (LRUCache_put k v c))
                = if decide (k = k') then Some v else find_entry k' (entries c).
Proof.
  intros Hcap. unfold LRUCache_put, evict. cbn [capacity entries].
  rewrite Hcap. split; [reflexivity |].
  intros k'. cbn. destruct (decide (k = k')) as [Heq | Hne]; [reflexivity |].
  apply find_entry_drop_entry_other. congruence.
Qed.

(** A cache that can hold one entry holds what was just put. *)
Lemma LRUCache_put_found k v c :
  holds_one (capacity c) ->
  capacity (LRUCache_put k v c) = capacity c
  /\ find_entry k (entries (LRUCache_put k v c)) = Some v.
Proof.
  intros Hcap. unfold LRUCache_put, evict. cbn [capacity entries].
  destruct (is_unbounded (capacity c)) eqn:Hbounded.
  - split; [reflexivity |]. cbn. now rewrite decide_True.
  - destruct Hcap as [Hunb | Hpos]; [now rewrite Hunb in Hbounded |].
    destruct (Z.ltb_spec (capacity c) (Z.of_nat (length ((k, v) :: drop_entry k (entries c)))))
      as [Hover | Hfits].
    + split; [reflexivity |]. cbn [entries].
      destruct (drop_entry k (entries c)) as [| e rest]; [cbn in Hover; lia |].
      cbn. now rewrite decide_True.
    + split; [reflexivity |]. cbn. now rewrite decide_True.
Qed.

Lemma apply_op_unbounded c (op : CacheOp K V) :
  is_unbounded (capacity c) = true ->
  is_unbounded (capacity (apply_op c op)) = true
  /\ forall k, find_entry k (entries (apply_op c op))
               = match last_put k [op] with
                 | Some v => Some v
                 | None => find_entry k (entries c)
                 end.
Proof.
  intros Hcap. destruct op as [k0 | k0 v0]; cbn [apply_op last_put].
  - split; [now rewrite LRUCache_get_capacity |].
    intros k. apply LRUCache_get_find.
  - destruct (LRUCache_put_no_bound k0 v0 c Hcap) as [Hcap' Hfind].
    split; [now rewrite Hcap' |]. intros k. rewrite Hfind. now destruct (decide (k0 = k)).
Qed.

(** However many operations an unbounded cache has seen, every key holds
    the last value put under it: nothing was evicted. *)
Lemma run_ops_unbounded (ops : list (CacheOp K V)) c :
  is_unbounded (capacity c) = true ->
  forall k, (LRUCache_get k (run_ops ops c)).1
            = match last_put k ops with
              | Some v => Some v
              | None => find_entry k (entries c)
              end.
Proof.
  intros Hcap k. rewrite LRUCache_get_result. unfold run_ops.
  revert c Hcap. induction ops as [| op ops IH]; intros c Hcap; [reflexivity |].
  cbn [foldl]. destruct (apply_op_unbounded c op Hcap) as [Hcap' Hfind].
  rewrite (IH _ Hcap'), Hfind. cbn [last_put].
  now destruct (last_put k ops).
Qed.
End LRUProperties.

(* ===================================================================== *)
(** ** init_lru_cache                                                      *)
(* ===================================================================== *)

Lemma digits_not_digit (acc : Z) (c : ascii) (rest : string) :
  isdigit c = false -> digits acc (String c rest) = acc.
Proof. intros Hc. cbn. now rewrite Hc. Qed.

(** Text [atoi] cannot convert reads as 0. *)
Lemma atoi_non_numeric (text : string) : non_numeric text = true -> atoi text = Ok 0.
Proof.
  unfold non_numeric, atoi.
  destruct (skip_spaces text) as [| c rest]; [reflexivity |].
  destruct (bool_decide (c = "-"%char)) eqn:Hminus.
  { apply bool_decide_eq_true_1 in Hminus as ->. cbn [orb].
    destruct rest as [| d rest]; [reflexivity |].
    intros Hd%negb_true_iff. now rewrite digits_not_digit. }
  destruct (bool_decide (c = "+"%char)) eqn:Hplus.
  { apply bool_decide_eq_true_1 in Hplus as ->. cbn [orb].
    destruct rest as [| d rest]; [reflexivity |].
    intros Hd%negb_true_iff. now rewrite digits_not_digit. }
  cbn [orb]. intros Hc%negb_true_iff.
  apply bool_decide_eq_false_1 in Hminus, Hplus.
  assert (match String c rest with
          | String "-"%char r => - digits 0 r
          | String "+"%char r => digits 0 r
          | _ => digits 0 (String c rest)
          end = digits 0 (String c rest)) as ->.
  { destruct c as [[] [] [] [] [] [] [] []]; try reflexivity; congruence. }
  now rewrite digits_not_digit.
Qed.

Lemma init_lru_cache_unset {K V : Type} (w : World) :
  getenv w "AITER_MAX_CACHE_SIZE" = None ->
  init_lru_cache w = Ok (LRUCache_new (K := K) (V := V) unbounded).
Proof. intros Hunset. unfold init_lru_cache. now rewrite Hunset. Qed.

Lemma init_lru_cache_non_numeric {K V : Type} (w : World) (text : string) :
  getenv w "AITER_MAX_CACHE_SIZE" = Some text -> non_numeric text = true ->
  init_lru_cache w = Ok (LRUCache_new (K := K) (V := V) 0).
Proof.
  intros Hset Htext. unfold init_lru_cache. rewrite Hset.
  now rewrite (atoi_non_numeric text Htext).
Qed.



(* ===================================================================== *)
(** ** The process state                                                   *)
(* ===================================================================== *)

Lemma set_func_names_same (c : LRUCache string string) (s : Process) :
  func_names s = Some c -> set_func_names c s = s.
Proof. destruct s. cbn. now intros ->. Qed.

Lemma set_libs_same (c : LRUCache string SharedLibrary) (s : Process) :
  libs s = Some c -> set_libs c s = s.
Proof. destruct s. cbn. now intros ->. Qed.

(** A key just found in a cache of the process is found again, and the
    second lookup leaves the process as it is. *)
Lemma func_names_get_again (key name : string) (s s1 : Process) :
  func_names_get key s = (Ok (Some name), s1) ->
  func_names s1 <> None /\ func_names_get key s1 = (Ok (Some name), s1).
Proof.
  unfold func_names_get. destruct (func_names s) as [c |]; [| discriminate].
  destruct (LRUCache_get key c) as [r c'] eqn:Hget. intros [= -> <-].
  split; [discriminate |]. cbn [func_names set_func_names].
  now rewrite (LRUCache_get_hit_again _ _ _ _ Hget).
Qed.

Lemma libs_get_again (key : string) (lib : SharedLibrary) (s s1 : Process) :
  libs_get key s = (Ok (Some lib), s1) ->
  libs s1 <> None /\ dlopen_count s1 = dlopen_count s
  /\ libs_get key s1 = (Ok (Some lib), s1).
Proof.
  unfold libs_get. destruct (libs s) as [c |]; [| discriminate].
  destruct (LRUCache_get key c) as [r c'] eqn:Hget. intros [= -> <-].
  split; [discriminate |]. split; [reflexivity |]. cbn [libs set_libs].
  now rewrite (LRUCache_get_hit_again _ _ _ _ Hget).
Qed.

Lemma call_once_func_names_done (w : World) (s : Process) :
  func_names s <> None -> call_once_func_names w s = (Ok (), s).
Proof. unfold call_once_func_names. now destruct (func_names s). Qed.

Lemma call_once_libs_done (w : World) (s : Process) :
  libs s <> None -> call_once_libs w s = (Ok (), s).
Proof. unfold call_once_libs. now destruct (libs s). Qed.

(** Destructs the next monadic step of a goal about a [JIT] computation,
    naming its result, the state it leaves and the equation. *)
Ltac jit_step r s' E :=
  match goal with
  | |- context [match ?m ?s with (_, _) => _ end] =>
      destruct (m s) as [[r | |] s'] eqn:E; try discriminate
  end.

Section NamesProperties.
Variable EVP_md5 : string -> list byte.

Local Abbreviation name_of := (get_default_func_name EVP_md5).

(** A name is always returned out of the cache: a returning call ends
    with a successful lookup of the canonical string. *)
Lemma get_default_func_name_inversion (w : World) (md_name : string)
    (args : list string) (s s1 : Process) (name : string) :
  name_of w md_name args s = (Ok name, s1) ->
  exists s0, func_names_get (args_str args) s0 = (Ok (Some name), s1).
Proof.
  unfold get_default_func_name, jit_bind.
  jit_step u s0 Hinit. jit_step found s2 Hget. destruct found as [cached |].
  - unfold jit_ret. intros [= <- <-]. now exists s0.
  - jit_step u' s3 Hput. jit_step found s4 Hget'.
    destruct found as [fresh_name |]; [| discriminate].
    unfold jit_ret. intros [= <- <-]. now exists s3.
Qed.

(** The name a call returned is what any later call returns for the same
    canonical string, whatever module asks, as long as it is the next
    call. *)
Lemma get_default_func_name_again (w w' : World) (md_name md_name' : string)
    (args args' : list string) (s s1 : Process) (name : string) :
  name_of w md_name args s = (Ok name, s1) ->
  args_str args' = args_str args ->
  name_of w' md_name' args' s1 = (Ok name, s1).
Proof.
  intros [s0 Hget]%get_default_func_name_inversion Hsame.
  apply func_names_get_again in Hget as [Hinit Hagain].
  unfold get_default_func_name, jit_bind.
  rewrite (call_once_func_names_done w' s1 Hinit), Hsame, Hagain.
  reflexivity.
Qed.

(** With a cache that can hold one entry, the call returns a name. *)
Lemma get_default_func_name_returns (w : World) (md_name : string)
    (args : list string) (s : Process) :
  names_ready w s ->
  exists name s1, name_of w md_name args s = (Ok name, s1).
Proof.
  intros Hready.
  assert (exists c, call_once_func_names w s = (Ok (), set_func_names c s)
                    /\ holds_one (capacity c)) as (c & Hinit & Hcap).
  { unfold names_ready, call_once_func_names in *.
    destruct (func_names s) as [c |] eqn:Hc.
    - exists c. split; [| exact Hready]. now rewrite (set_func_names_same c s Hc).
    - destruct Hready as (c & -> & Hcap). now exists c. }
  unfold get_default_func_name, jit_bind. rewrite Hinit.
  unfold func_names_get at 1. cbn [func_names set_func_names].
  unfold LRUCache_get at 1.
  destruct (find_entry (args_str args) (entries c)) as [cached |] eqn:Hfind.
  - unfold jit_ret. eauto.
  - unfold func_names_put, func_names_get. cbn [func_names set_func_names].
    destruct (LRUCache_put_found (args_str args)
                (md_name +:+ "_" +:+ hash_signature EVP_md5 (args_str args)) c Hcap)
      as [_ Hfound].
    unfold LRUCache_get. rewrite Hfound. unfold jit_ret. eauto.
Qed.

(** With the cache still empty the name is computed from the caller's
    module name and the digest of the canonical string. *)
Lemma get_default_func_name_first (w : World) (md_name : string) (args : list string) :
  getenv w "AITER_MAX_CACHE_SIZE" = None ->
  (name_of w md_name args start).1
  = Ok (md_name +:+ "_" +:+ hash_signature EVP_md5 (args_str args)).
Proof.
  intros Hunset.
  unfold get_default_func_name, jit_bind, start, call_once_func_names.
  cbn [func_names]. rewrite (init_lru_cache_unset w Hunset).
  unfold func_names_get, func_names_put, set_func_names, LRUCache_put, LRUCache_get, evict.
  cbn. repeat (rewrite decide_True by reflexivity; cbn). reflexivity.
Qed.
End NamesProperties.

(* ===================================================================== *)
(** ** Canonical strings                                                   *)
(* ===================================================================== *)

Lemma tolower_upper (c : ascii) :
  is_upper c = true -> tolower c = ascii_of_N (N_of_ascii c + 32).
Proof. unfold is_upper, tolower. now intros ->. Qed.

Lemma tolower_not_upper (c : ascii) : is_upper c = false -> tolower c = c.
Proof. unfold is_upper, tolower. now intros ->. Qed.

Lemma is_lower_not_upper (c : ascii) : is_lower c = true -> is_upper c = false.
Proof.
  unfold is_lower, is_upper. intros [Hlo Hhi]%andb_true_iff.
  apply Z.leb_le in Hlo. apply andb_false_iff. right. apply Z.leb_gt. lia.
Qed.

(** The lower-case form of an upper-case letter is the letter 32 codes
    above it. *)
Lemma tolower_pair (c d : ascii) :
  is_upper c = true -> is_lower d = true -> char_code d = char_code c + 32 ->
  tolower c = tolower d.
Proof.
  intros Hc Hd Hcode.
  rewrite (tolower_upper c Hc), (tolower_not_upper d (is_lower_not_upper d Hd)).
  rewrite <- (ascii_N_embedding d). f_equal.
  unfold char_code in Hcode. lia.
Qed.

Lemma tolower_same_letter (c d : ascii) :
  same_letter c d = true -> tolower c = tolower d.
Proof.
  unfold same_letter. rewrite !orb_true_iff, !andb_true_iff.
  intros [[Heq | [[Hc Hd] Hcode]] | [[Hc Hd] Hcode]].
  - now apply bool_decide_eq_true_1 in Heq as ->.
  - apply tolower_pair; [exact Hc | exact Hd | now apply Z.eqb_eq].
  - symmetry. apply tolower_pair; [exact Hd | exact Hc | now apply Z.eqb_eq].
Qed.

Lemma transform_differ_only_in_case (a b : string) :
  differ_only_in_case a b = true -> transform tolower a = transform tolower b.
Proof.
  revert b. induction a as [| c a IH]; intros [| d b]; cbn; try discriminate.
  - reflexivity.
  - intros [Hcd Hab]%andb_true_iff.
    now rewrite (tolower_same_letter c d Hcd), (IH b Hab).
Qed.

Lemma transform_app (f : ascii -> ascii) (a b : string) :
  transform f (a +:+ b) = transform f a +:+ transform f b.
Proof.
  induction a as [| c a IH]; [reflexivity |].
  change (transform f (String c (a +:+ b))
          = String (f c) (transform f a +:+ transform f b)).
  cbn [transform]. now f_equal.
Qed.

Lemma transform_concat (f : ascii -> ascii) (sep : string) (l : list string) :
  transform f (String.concat sep l)
  = String.concat (transform f sep) (transform f <$> l).
Proof.
  induction l as [| a l IH]; [reflexivity |].
  destruct l as [| b l]; [reflexivity |].
  change (String.concat sep (a :: b :: l)) with (a +:+ sep +:+ String.concat sep (b :: l)).
  rewrite !transform_app, IH. reflexivity.
Qed.

(** Descriptor lists that differ only in letter case have one canonical
    string. *)
Lemma args_str_differ_only_in_case (args1 args2 : list string) :
  Forall2 (fun a b => differ_only_in_case a b = true) args1 args2 ->
  args_str args1 = args_str args2.
Proof.
  intros Hargs. unfold args_str. rewrite !transform_concat. f_equal.
  induction Hargs as [| a b l1 l2 Hab _ IH]; [reflexivity |].
  cbn. now rewrite (transform_differ_only_in_case a b Hab), IH.
Qed.

(** C8. Two argument signatures that differ only in letter case have the
    same canonical string, and [get_default_func_name] therefore returns
    the same kernel identifier for both: from any state the two calls
    behave alike, a call for one followed by a call for the other returns
    the same name twice, and with a cache that can hold an entry the calls
    do return. *)
Theorem get_default_func_name_case_insensitive (EVP_md5 : string -> list byte)
    (args1 args2 : list string) :
  Forall2 (fun a b => differ_only_in_case a b = true) args1 args2 ->
  args_str args1 = args_str args2
  /\ (forall w md_name s,
        get_default_func_name EVP_md5 w md_name args1 s
        = get_default_func_name EVP_md5 w md_name args2 s)
  /\ (forall w w' md_name s s1 name,
        get_default_func_name EVP_md5 w md_name args1 s = (Ok name, s1) ->
        get_default_func_name EVP_md5 w' md_name args2 s1 = (Ok name, s1))
  /\ (forall w md_name s,
        names_ready w s ->
        exists name s1,
          get_default_func_name EVP_md5 w md_name args1 s = (Ok name, s1)
          /\ get_default_func_name EVP_md5 w md_name args2 s = (Ok name, s1)
          /\ get_default_func_name EVP_md5 w md_name args2 s1 = (Ok name, s1)).
Proof.
  intros Hargs. pose proof (args_str_differ_only_in_case _ _ Hargs) as Hsame.
  assert (forall w md_name s,
            get_default_func_name EVP_md5 w md_name args1 s
            = get_default_func_name EVP_md5 w md_name args2 s) as Halike.
  { intros w md_name s. unfold get_default_func_name. now rewrite Hsame. }
  split; [exact Hsame |]. split; [exact Halike |]. split.
  - intros w w' md_name s s1 name Hfirst.
    now apply (get_default_func_name_again EVP_md5 w w' md_name md_name args1 args2 s).
  - intros w md_name s Hready.
    destruct (get_default_func_name_returns EVP_md5 w md_name args1 s Hready)
      as (name & s1 & Hfirst).
    exists name, s1. split; [exact Hfirst |]. split; [now rewrite <- Halike |].
    now apply (get_default_func_name_again EVP_md5 w w md_name md_name args1 args2 s).
Qed.

Lemma get_default_func_name_case_insensitive_witness :
  args_str ["Float16"; "BF16"; "128"] = "float16_bf16_128"
  /\ args_str ["float16"; "bf16"; "128"] = "float16_bf16_128"
  /\ exists name s1,
       get_default_func_name md5 example_world "gemm" ["Float16"; "BF16"; "128"] start
       = (Ok name, s1)
       /\ get_default_func_name md5 example_world "gemm" ["float16"; "bf16"; "128"] start
          = (Ok name, s1)
       /\ get_default_func_name md5 example_world "gemm" ["float16"; "bf16"; "128"] s1
          = (Ok name, s1).
Proof.
  split; [reflexivity |]. split; [reflexivity |].
  destruct (get_default_func_name_case_insensitive md5
              ["Float16"; "BF16"; "128"] ["float16"; "bf16"; "128"])
    as (_ & _ & _ & Hreturns).
  - repeat constructor.
  - apply Hreturns. exists (LRUCache_new unbounded).
    split; [reflexivity | now left].
Defined.

(* ===================================================================== *)
(** ** Kernel identifiers and module names                                 *)
(* ===================================================================== *)

(** Whatever the digest, a second module asking for the same canonical
    string gets the name made for the first one. *)
Lemma get_default_func_name_keyed_by_args (EVP_md5 : string -> list byte)
    (w : World) (md_name md_name' : string) (args : list string) :
  getenv w "AITER_MAX_CACHE_SIZE" = None ->
  (get_default_func_name EVP_md5 w md_name' args
     (get_default_func_name EVP_md5 w md_name args start).2).1
  = Ok (md_name +:+ "_" +:+ hash_signature EVP_md5 (args_str args)).
Proof.
  intros Hunset.
  pose proof (get_default_func_name_first EVP_md5 w md_name args Hunset) as Hfirst.
  destruct (get_default_func_name EVP_md5 w md_name args start) as [r s1] eqn:Hcall.
  cbn [fst snd] in *. subst r.
  now rewrite (get_default_func_name_again EVP_md5 w w md_name md_name' args args _ _ _ Hcall).
Qed.

(** C1 fails on the code: the identifier cache is keyed by the canonical
    string alone. After [module_a] obtained the name for (float16, 128),
    the call of [module_b] with the same arguments returns the name with
    the prefix [module_a], not [module_b] followed by the digest. *)
Theorem get_default_func_name_foreign_prefix :
  hash_signature md5 (args_str ["float16"; "128"]) = "f0f0247f54cb84f5361fd8c56f4838fd"
  /\ (get_default_func_name md5 example_world "module_a" ["float16"; "128"] start).1
     = Ok "module_a_f0f0247f54cb84f5361fd8c56f4838fd"
  /\ (get_default_func_name md5 example_world "module_b" ["float16"; "128"]
        (get_default_func_name md5 example_world "module_a" ["float16"; "128"] start).2).1
     = Ok "module_a_f0f0247f54cb84f5361fd8c56f4838fd"
  /\ (get_default_func_name md5 example_world "module_b" ["float16"; "128"]
        (get_default_func_name md5 example_world "module_a" ["float16"; "128"] start).2).1
     <> Ok ("module_b" +:+ "_" +:+ hash_signature md5 (args_str ["float16"; "128"])).
Proof.
  split; [vm_compute; reflexivity |].
  split; [vm_compute; reflexivity |].
  split; [vm_compute; reflexivity |].
  vm_compute. discriminate.
Qed.

(* ===================================================================== *)
(** ** run_lib                                                             *)
(* ===================================================================== *)

Lemma get_root_dir_resolved (w : World) (s s1 : Process) (root : string) :
  get_root_dir w s = (Ok root, s1) ->
  aiter_root_dir s1 = Some root /\ libs s1 = libs s /\ func_names s1 = func_names s
  /\ dlopen_count s1 = dlopen_count s.
Proof.
  unfold get_root_dir. destruct (aiter_root_dir s) as [r |] eqn:Hr.
  - now intros [= <- <-].
  - destruct (init_root_dir w); [| discriminate | discriminate].
    now intros [= <- <-].
Qed.

(** The root directory is resolved once: later calls return the stored
    path, whatever the environment says by then. *)
Lemma get_root_dir_stored (w : World) (s : Process) (root : string) :
  aiter_root_dir s = Some root -> get_root_dir w s = (Ok root, s).
Proof. unfold get_root_dir. now intros ->. Qed.

Lemma init_lru_cache_empty {K V : Type} (w : World) (c : LRUCache K V) :
  init_lru_cache w = Ok c -> entries c = [].
Proof.
  unfold init_lru_cache. destruct (atoi _); cbn; [| discriminate | discriminate].
  now intros [= <-].
Qed.

(** Resolving and calling an entry point leaves the process state alone. *)
Lemma SharedLibrary_call_pure (lib : SharedLibrary) (func_name : string)
    (s s' : Process) (r : Result Call) :
  SharedLibrary_call lib func_name s = (r, s') ->
  s' = s /\ forall t, SharedLibrary_call lib func_name t = (r, t).
Proof.
  unfold SharedLibrary_call. destruct (bool_decide _).
  - unfold jit_ret. now intros [= <- <-].
  - unfold jit_throw. now intros [= <- <-].
Qed.

(** A returning [run_lib] ends with a successful lookup of the library
    and the call through it. *)
Lemma run_lib_inversion (w : World) (func_name folder : string) (s s1 : Process)
    (call : Call) :
  run_lib w func_name folder s = (Ok call, s1) ->
  exists s0 lib,
    libs_get func_name s0 = (Ok (Some lib), s1)
    /\ SharedLibrary_call lib func_name s1 = (Ok call, s1).
Proof.
  unfold run_lib, jit_bind.
  jit_step u s0 Hinit. jit_step found s2 Hget. destruct found as [lib |].
  - unfold jit_ret. intros Hcall. exists s0, lib.
    destruct (SharedLibrary_call_pure _ _ _ _ _ Hcall) as [-> Hpure].
    split; [exact Hget | apply Hpure].
  - jit_step root s3 Hroot. jit_step lib s4 Hnew. jit_step u' s5 Hput.
    jit_step found s6 Hget'. destruct found as [lib' |]; [| discriminate].
    intros Hcall. exists s5, lib'.
    destruct (SharedLibrary_call_pure _ _ _ _ _ Hcall) as [-> Hpure].
    split; [exact Hget' | apply Hpure].
Qed.

(** *** An unbounded library cache keeps a loaded library *)

Lemma holds_lib_libs_get (name key : string) (lib : SharedLibrary) (s s' : Process)
    (r : Result (option SharedLibrary)) :
  holds_lib name lib s -> libs_get key s = (r, s') ->
  holds_lib name lib s'
  /\ dlopen_count s' = dlopen_count s
  /\ exists c, libs s = Some c /\ r = Ok (find_entry key (entries c)).
Proof.
  intros (c & Hc & Hcap & Hfind). unfold libs_get. rewrite Hc.
  destruct (LRUCache_get key c) as [found c'] eqn:Hget. intros [= <- <-].
  pose proof (LRUCache_get_capacity key c) as Hcap'.
  pose proof (LRUCache_get_find key name c) as Hfind'.
  pose proof (LRUCache_get_result key c) as Hres.
  rewrite Hget in Hcap', Hfind', Hres. cbn [fst snd] in *.
  split; [| split; [reflexivity |]].
  - exists c'. cbn [libs set_libs]. split; [reflexivity |]. split; congruence.
  - exists c. split; [reflexivity | now rewrite Hres].
Qed.

Lemma holds_lib_get_root_dir (name : string) (lib : SharedLibrary) (w : World)
    (s s' : Process) (r : Result string) :
  holds_lib name lib s -> get_root_dir w s = (r, s') -> holds_lib name lib s'.
Proof.
  intros Hholds. unfold get_root_dir.
  destruct (aiter_root_dir s); [now intros [= <- <-] |].
  destruct (init_root_dir w); now intros [= <- <-].
Qed.

Lemma holds_lib_SharedLibrary_new (name path : string) (lib : SharedLibrary) (w : World)
    (s s' : Process) (r : Result SharedLibrary) :
  holds_lib name lib s -> SharedLibrary_new w path s = (r, s') -> holds_lib name lib s'.
Proof.
  intros Hholds. unfold SharedLibrary_new.
  destruct (files w !! path) as [[symbols |] |]; now intros [= <- <-].
Qed.

Lemma holds_lib_libs_put (name key : string) (lib value : SharedLibrary)
    (s s' : Process) (r : Result unit) :
  holds_lib name lib s -> key <> name -> libs_put key value s = (r, s') ->
  holds_lib name lib s'.
Proof.
  intros (c & Hc & Hcap & Hfind) Hne. unfold libs_put. rewrite Hc. intros [= <- <-].
  destruct (LRUCache_put_unbounded key value c Hcap) as [Hcap' Hfind'].
  exists (LRUCache_put key value c). cbn [libs set_libs].
  split; [reflexivity |]. split; [exact Hcap' |].
  rewrite Hfind'. now rewrite decide_False by exact Hne.
Qed.

(** Whatever [run_lib] is asked next and however it ends, an unbounded
    cache still holds the library afterwards. *)
Lemma holds_lib_run_lib (name : string) (lib : SharedLibrary) (w : World)
    (func_name folder : string) (s : Process) :
  holds_lib name lib s -> holds_lib name lib (run_lib w func_name folder s).2.
Proof.
  intros Hholds. unfold run_lib, jit_bind.
  rewrite call_once_libs_done by (destruct Hholds as (c & -> & _); discriminate).
  destruct (libs_get func_name s) as [r s2] eqn:Hget.
  destruct (holds_lib_libs_get _ _ _ _ _ _ Hholds Hget) as (H2 & _ & c & Hc & ->).
  destruct (find_entry func_name (entries c)) as [found |] eqn:Hfound.
  - unfold jit_ret.
    destruct (SharedLibrary_call found func_name s2) as [r' s3] eqn:Hcall.
    now destruct (SharedLibrary_call_pure _ _ _ _ _ Hcall) as [-> _], r'.
  - assert (func_name <> name) as Hne.
    { intros ->. destruct Hholds as (c0 & Hc0 & _ & Hfind). congruence. }
    destruct (get_root_dir w s2) as [[root | |] s3] eqn:Hroot;
      pose proof (holds_lib_get_root_dir _ _ _ _ _ _ H2 Hroot) as H3;
      [| exact H3 | exact H3].
    destruct (SharedLibrary_new w _ s3) as [[new_lib | |] s4] eqn:Hnew;
      pose proof (holds_lib_SharedLibrary_new _ _ _ _ _ _ _ H3 Hnew) as H4;
      [| exact H4 | exact H4].
    destruct (libs_put func_name new_lib s4) as [[u | |] s5] eqn:Hput;
      pose proof (holds_lib_libs_put _ _ _ _ _ _ _ H4 Hne Hput) as H5;
      [| exact H5 | exact H5].
    destruct (libs_get func_name s5) as [r6 s6] eqn:Hget'.
    destruct (holds_lib_libs_get _ _ _ _ _ _ H5 Hget') as (H6 & _ & c5 & _ & ->).
    destruct (find_entry func_name (entries c5)) as [found |]; [| exact H6].
    destruct (SharedLibrary_call found func_name s6) as [r' s7] eqn:Hcall.
    now destruct (SharedLibrary_call_pure _ _ _ _ _ Hcall) as [-> _], r'.
Qed.

Lemma holds_lib_run_libs (name : string) (lib : SharedLibrary)
    (calls : list (World * string * string)) (s : Process) :
  holds_lib name lib s -> holds_lib name lib (run_libs calls s).
Proof.
  unfold run_libs. revert s.
  induction calls as [| call calls IH]; intros s Hholds; [exact Hholds |].
  cbn [foldl]. apply IH. now apply holds_lib_run_lib.
Qed.

(** A library the cache holds is used without a load. *)
Lemma run_lib_cached (w : World) (func_name folder : string) (lib : SharedLibrary)
    (c : LRUCache string SharedLibrary) (s : Process) :
  libs s = Some c -> find_entry func_name (entries c) = Some lib ->
  exists s', run_lib w func_name folder s = ((SharedLibrary_call lib func_name s).1, s')
             /\ dlopen_count s' = dlopen_count s.
Proof.
  intros Hc Hfind. unfold run_lib, jit_bind.
  rewrite call_once_libs_done by (rewrite Hc; discriminate).
  unfold libs_get, LRUCache_get. rewrite Hc, Hfind. unfold jit_ret.
  destruct (SharedLibrary_call lib func_name (set_libs _ s)) as [r s'] eqn:Hcall.
  destruct (SharedLibrary_call_pure _ _ _ _ _ Hcall) as [-> Hpure].
  rewrite (Hpure s). cbn [fst]. eexists. split; [destruct r; reflexivity | reflexivity].
Qed.

(** C7. Once [run_lib] has run a kernel identifier successfully, the next
    [run_lib] for the same identifier (whatever the folder, whatever is on
    disk by then) goes through the very same [SharedLibrary] object and
    constructs no new one: the count of loads does not move. With the
    unbounded cache of the default configuration the same holds for every
    later [run_lib] of the identifier, whatever was run in between. *)
Theorem run_lib_loads_once (w w' : World) (func_name folder folder' : string)
    (s s1 : Process) (call : Call) :
  run_lib w func_name folder s = (Ok call, s1) ->
  (exists s2,
     run_lib w' func_name folder' s1 = (Ok call, s2)
     /\ dlopen_count s2 = dlopen_count s1
     /\ libs s2 = libs s1)
  /\ ((forall c, libs s1 = Some c -> capacity c = unbounded) ->
      forall calls, exists s2,
        run_lib w' func_name folder' (run_libs calls s1) = (Ok call, s2)
        /\ dlopen_count s2 = dlopen_count (run_libs calls s1)).
Proof.
  intros (s0 & lib & Hget & Hcall)%run_lib_inversion.
  destruct (SharedLibrary_call_pure _ _ _ _ _ Hcall) as [_ Hpure].
  split.
  - apply libs_get_again in Hget as (Hinit & _ & Hagain).
    exists s1. split; [| split; reflexivity].
    unfold run_lib, jit_bind.
    rewrite (call_once_libs_done w' s1 Hinit), Hagain. unfold jit_ret.
    exact Hcall.
  - intros Hcap calls.
    assert (holds_lib func_name lib s1) as Hholds.
    { pose proof Hget as (_ & _ & Hagain)%libs_get_again.
      unfold libs_get in Hagain. destruct (libs s1) as [c1 |] eqn:Hc1; [| discriminate].
      exists c1. split; [exact Hc1 |]. split; [now apply Hcap |].
      rewrite <- LRUCache_get_result.
      destruct (LRUCache_get func_name c1) as [found c1']. now injection Hagain as ->. }
    destruct (holds_lib_run_libs _ _ calls _ Hholds) as (c & Hc & _ & Hfind).
    destruct (run_lib_cached w' func_name folder' lib c _ Hc Hfind) as (s2 & Hrun & Hcount).
    exists s2. rewrite Hrun, Hpure. now split.
Qed.

Lemma run_lib_loads_once_witness :
  run_lib example_world "k_abcd1234" "foo" start
  = (Ok (mkCall (mkLib 0 "/home/u/.aiter/build/foo/lib.so" ["k_abcd1234"]) "k_abcd1234"),
     (run_lib example_world "k_abcd1234" "foo" start).2)
  /\ dlopen_count (run_lib example_world "k_abcd1234" "foo" start).2 = 1%nat
  /\ (exists s2,
        run_lib example_world "k_abcd1234" "foo"
          (run_lib example_world "k_abcd1234" "foo" start).2
        = (Ok (mkCall (mkLib 0 "/home/u/.aiter/build/foo/lib.so" ["k_abcd1234"])
                      "k_abcd1234"), s2)
        /\ dlopen_count s2 = dlopen_count (run_lib example_world "k_abcd1234" "foo" start).2
        /\ libs s2 = libs (run_lib example_world "k_abcd1234" "foo" start).2)
  /\ (exists s2,
        run_lib example_world "k_abcd1234" "foo"
          (run_libs [(example_world, "k_other", "bar");
                     (example_world, "k_other", "broken")]
                    (run_lib example_world "k_abcd1234" "foo" start).2)
        = (Ok (mkCall (mkLib 0 "/home/u/.aiter/build/foo/lib.so" ["k_abcd1234"])
                      "k_abcd1234"), s2)
        /\ dlopen_count s2
           = dlopen_count
               (run_libs [(example_world, "k_other", "bar");
                          (example_world, "k_other", "broken")]
                         (run_lib example_world "k_abcd1234" "foo" start).2)).
Proof.
  assert (run_lib example_world "k_abcd1234" "foo" start
          = (Ok (mkCall (mkLib 0 "/home/u/.aiter/build/foo/lib.so" ["k_abcd1234"])
                        "k_abcd1234"),
             (run_lib example_world "k_abcd1234" "foo" start).2)) as Hfirst
    by (vm_compute; reflexivity).
  split; [exact Hfirst |]. split; [vm_compute; reflexivity |].
  destruct (run_lib_loads_once example_world example_world "k_abcd1234" "foo" "foo"
              start _ _ Hfirst) as [Hnext Hlater].
  split; [exact Hnext |].
  apply Hlater. intros c Hc. vm_compute in Hc. now injection Hc as <-.
Defined.




(* ===================================================================== *)
(** * Part III: further properties of the two files                        *)
(* ===================================================================== *)

(** ** nextPow2 and the bucketing *)

Lemma next_power_of_two_pow2 (e : Z) : 0 <= e -> next_power_of_two (2 ^ e) = 2 ^ e.
Proof. intros He. unfold next_power_of_two. now rewrite Z.log2_up_pow2. Qed.

(** X1. On 1 .. 2^30 [nextPow2] returns the least power of two that is
    not below its argument; a power of two is returned unchanged. *)
Theorem nextPow2_least_power (num : Z) :
  1 <= num <= 2 ^ 30 ->
  exists e,
    0 <= e /\ nextPow2 num = Ok (2 ^ e) /\ num <= 2 ^ e < 2 * num
    /\ (forall e', 0 <= e' -> num <= 2 ^ e' -> 2 ^ e <= 2 ^ e')
    /\ (forall k, num = 2 ^ k -> 2 ^ e = num).
Proof.
  intros Hnum. exists (Z.log2_up num).
  split; [apply Z.log2_up_nonneg |].
  split; [now apply nextPow2_next_power_of_two |].
  split; [apply (next_power_of_two_bounds num); lia |].
  split.
  - intros e' He' Hreach. apply (next_power_of_two_least num e'); lia.
  - intros k ->.
    destruct (Z.lt_ge_cases k 0) as [Hneg | Hk].
    + rewrite Z.pow_neg_r in Hnum by exact Hneg. lia.
    + now apply next_power_of_two_pow2.
Qed.

Lemma nextPow2_least_power_witness :
  exists e,
    0 <= e /\ nextPow2 300 = Ok (2 ^ e) /\ 300 <= 2 ^ e < 2 * 300
    /\ (forall e', 0 <= e' -> 300 <= 2 ^ e' -> 2 ^ e <= 2 ^ e')
    /\ (forall k, 300 = 2 ^ k -> 2 ^ e = 300).
Proof. apply (nextPow2_least_power 300). lia. Defined.

(** With the top bit of [num - 1] set the shift count is the width of
    [int]. *)
Lemma nextPow2_full_shift (num : Z) : 2 ^ 31 < num < 2 ^ 32 -> nextPow2 num = Undefined.
Proof.
  unfold nextPow2, builtin_clz. intros [Hlo Hhi].
  destruct (Z.leb_spec num 1); [lia |].
  assert (Z.log2 (num - 1) = 31) as ->.
  { apply Z.log2_unique; [lia |]. change (Z.succ 31) with 32. lia. }
  reflexivity.
Qed.

(** X2. Beyond 2^30 the result leaves the powers of two: for an argument
    in (2^30, 2^31] the shift [1 << 31] wraps and [nextPow2] returns
    [INT_MIN]; for a larger 32-bit argument the shift count is 32 and the
    behaviour is undefined. Arguments 0 and 1 both give 1. *)
Theorem nextPow2_out_of_range (num : Z) :
  (0 <= num <= 1 -> nextPow2 num = Ok 1)
  /\ (2 ^ 30 < num <= 2 ^ 31 -> nextPow2 num = Ok INT_MIN)
  /\ (2 ^ 31 < num < 2 ^ 32 -> nextPow2 num = Undefined).
Proof.
  unfold nextPow2, builtin_clz. repeat split.
  - intros [_ Hle]. now destruct (Z.leb_spec num 1); [| lia].
  - intros [Hlo Hhi]. destruct (Z.leb_spec num 1); [lia |].
    assert (Z.log2 (num - 1) = 30) as ->.
    { apply Z.log2_unique; [lia |]. change (Z.succ 30) with 31. lia. }
    reflexivity.
  - fold (builtin_clz (num - 1)). fold (nextPow2 num). apply nextPow2_full_shift.
Qed.

Lemma nextPow2_out_of_range_witness :
  nextPow2 0 = Ok 1
  /\ nextPow2 (2 ^ 30 + 1) = Ok INT_MIN
  /\ nextPow2 (2 ^ 31 + 1) = Undefined.
Proof.
  split; [apply (nextPow2_out_of_range 0); lia |].
  split; [apply (nextPow2_out_of_range (2 ^ 30 + 1)); lia |].
  apply (nextPow2_out_of_range (2 ^ 31 + 1)); lia.
Defined.

Lemma bucket_cases (M : Z) :
  1 <= M ->
  (M = 1 /\ bucket M = 1)
  \/ (1 < M <= 16 /\ bucket M = 16)
  \/ (16 < M <= 16384 /\ bucket M = next_power_of_two M /\ 16 < bucket M <= 16384)
  \/ (16384 < M <= 20480 /\ bucket M = 20480)
  \/ (20480 < M /\ bucket M = M).
Proof.
  intros HM. unfold bucket.
  destruct (Z.ltb_spec 1 M) as [H1 | H1].
  - destruct (Z.leb_spec M 16) as [H16 | H16]; cbn [andb].
    { right. left. split; [lia | reflexivity]. }
    destruct (Z.leb_spec M 16384).
    + right. right. left. split; [lia |]. split; [reflexivity |].
      pose proof (next_power_of_two_bounds M ltac:(lia)).
      pose proof (next_power_of_two_least M 14 ltac:(lia) ltac:(lia) ltac:(lia)).
      change (2 ^ 14) with 16384 in *. lia.
    + destruct (Z.leb_spec M 20480); [right; right; right; left | right; right; right; right];
        (split; [lia | reflexivity]).
  - assert (M = 1) as -> by lia. left. split; reflexivity.
Qed.

Lemma next_power_of_two_fixed (M : Z) :
  1 <= M -> next_power_of_two (next_power_of_two M) = next_power_of_two M.
Proof.
  intros HM. unfold next_power_of_two at 2 3.
  apply next_power_of_two_pow2, Z.log2_up_nonneg.
Qed.

Lemma bucket_idempotent (M : Z) : 1 <= M -> bucket (bucket M) = bucket M.
Proof.
  intros HM.
  destruct (bucket_cases M HM)
    as [[-> ->] | [[_ ->] | [(HMr & Hb & Hr) | [[_ ->] | [Hbig Hb]]]]];
    try reflexivity.
  - destruct (bucket_cases (bucket M) ltac:(lia))
      as [[Hc _] | [[Hc _] | [(_ & Hb' & _) | [[Hc _] | [Hc _]]]]]; try lia.
    rewrite Hb', Hb. now apply next_power_of_two_fixed.
  - now rewrite !Hb.
Qed.

Lemma next_power_of_two_mono (M M' : Z) :
  1 <= M <= M' -> next_power_of_two M <= next_power_of_two M'.
Proof.
  intros HM. unfold next_power_of_two.
  apply Z.pow_le_mono_r; [lia |]. apply Z.log2_up_le_mono. lia.
Qed.

Lemma bucket_mono (M M' : Z) : 1 <= M <= M' -> bucket M <= bucket M'.
Proof.
  intros [HM HMM'].
  pose proof (bucket_ge M' ltac:(lia)) as Hge'.
  destruct (bucket_cases M HM)
    as [[-> ->] | [[HMr ->] | [(HMr & Hb & Hr) | [[HMr ->] | [HMr Hb]]]]].
  - lia.
  - destruct (bucket_cases M' ltac:(lia))
      as [[Hc _] | [[_ ->] | [(Hc & _ & Hr') | [[_ ->] | [Hc Hb']]]]]; lia.
  - destruct (bucket_cases M' ltac:(lia))
      as [[Hc _] | [[Hc _] | [(_ & Hb' & _) | [[_ ->] | [Hc Hb']]]]]; try lia.
    rewrite Hb, Hb'. apply next_power_of_two_mono. lia.
  - destruct (bucket_cases M' ltac:(lia))
      as [[Hc _] | [[Hc _] | [(Hc & _ & _) | [[_ ->] | [Hc Hb']]]]]; lia.
  - destruct (bucket_cases M' ltac:(lia))
      as [[Hc _] | [[Hc _] | [(Hc & _ & _) | [[Hc _] | [Hc Hb']]]]]; lia.
Qed.

(** X3. The padding of [rowwise_dispatch] is a closure on the positive
    sizes: a padded M is padded to itself, and a larger M is never padded
    to a smaller size. *)
Theorem padded_m_closure (M M' p p' : Z) :
  1 <= M <= M' -> padded_m M = Ok p -> padded_m M' = Ok p' ->
  padded_m p = Ok p /\ p <= p'.
Proof.
  intros HM. rewrite !padded_m_bucket by lia. intros [= <-] [= <-].
  split.
  - pose proof (bucket_ge M ltac:(lia)).
    rewrite padded_m_bucket by lia. f_equal. apply bucket_idempotent. lia.
  - now apply bucket_mono.
Qed.

Lemma padded_m_closure_witness :
  padded_m 512 = Ok 512 /\ 512 <= 1024.
Proof. apply (padded_m_closure 300 600); [lia | reflexivity | reflexivity]. Defined.

(** ** rowwise_dispatch off the positive sizes *)

(** X4. For an M that is not positive the second lookup is not a padding:
    M = 0 (an empty batch) is looked up under M = 1, and for a negative M
    above [INT_MIN] whose exact lookup misses, the conversion to
    [unsigned] makes [nextPow2] shift by 32: undefined behaviour. *)
Theorem rowwise_dispatch_not_positive
    (table : DataType -> DataType -> DataType -> list (ShapeKey * RowwiseKernel))
    (AB D E : DataType) (M N K : Z) :
  (M = 0 ->
   rowwise_dispatch table AB D E M N K
   = Ok (match lookup table AB D E !! (0, N, K) with
         | Some kernel => kernel
         | None =>
             match lookup table AB D E !! (1, N, K) with
             | Some kernel => kernel
             | None => rowwise_heuristic_dispatch AB D E 0 N K
             end
         end))
  /\ (INT_MIN < M < 0 -> lookup table AB D E !! (M, N, K) = None ->
      rowwise_dispatch table AB D E M N K = Undefined).
Proof.
  split.
  - intros ->. unfold rowwise_dispatch.
    destruct (lookup table AB D E !! (0, N, K)); [reflexivity |].
    rewrite padded_m_zero. cbn.
    now destruct (lookup table AB D E !! (1, N, K)).
  - unfold INT_MIN. intros HM Hmiss. unfold rowwise_dispatch, padded_m.
    rewrite Hmiss.
    destruct (Z.ltb_spec 1 M); [lia |]. cbn [andb].
    destruct (Z.leb_spec M 16384); [| lia].
    assert (to_unsigned M = M + 2 ^ 32) as ->.
    { unfold to_unsigned. symmetry. apply (Z.mod_unique _ _ (-1)); lia. }
    rewrite (nextPow2_full_shift (M + 2 ^ 32)) by lia. reflexivity.
Qed.

Lemma rowwise_dispatch_not_positive_witness :
  rowwise_dispatch example_lookup_table I8 F32 F16 0 1280 8192
  = Ok (rowwise_heuristic_dispatch I8 F32 F16 0 1280 8192)
  /\ rowwise_dispatch example_lookup_table I8 F32 F16 (-4) 1280 8192 = Undefined.
Proof.
  destruct (rowwise_dispatch_not_positive example_lookup_table I8 F32 F16 0 1280 8192)
    as [Hzero _].
  destruct (rowwise_dispatch_not_positive example_lookup_table I8 F32 F16 (-4) 1280 8192)
    as [_ Hneg].
  split; [now rewrite Hzero | apply Hneg; [unfold INT_MIN; lia | reflexivity]].
Defined.

(** ** The regions of the heuristic *)

(** Rewrites the comparisons of a goal and its hypotheses into
    inequalities. *)
Ltac bool_to_Z :=
  rewrite ?andb_true_iff, ?andb_false_iff, ?Z.ltb_lt, ?Z.ltb_ge, ?Z.leb_le, ?Z.leb_gt in *.

(** X5. The decision ladder read backwards: for each of the eight
    variants, the exact set of shapes it is chosen for. The small-batch
    catch-all is only reached on the lines N = 2048 or K = 2048, and the
    large fallback only for N below 1024. *)
Theorem rowwise_heuristic_dispatch_regions (AB D E : DataType) (M N K : Z) :
  (rowwise_heuristic_dispatch AB D E M N K
   = a8w8_rowwise_256x256x128x64_32x32_4x2_4x64x1_4x64x1_1x32x1x8_8x8x1_1x1_interwave_v1 AB D E
   <-> K < 512 \/ (1024 <= M /\ 1024 <= N /\ 1024 <= K))
  /\ (rowwise_heuristic_dispatch AB D E M N K
      = a8w8_rowwise_64x16x16x128_16x16_1x1_8x8x1_8x8x1_1x16x1x4_4x4x1_1x1_interwave_v2 AB D E
      <-> M < 64 /\ ((N < 2048 /\ 512 <= K < 2048)
                     \/ (2048 <= N /\ 2048 <= K /\ (N = 2048 \/ K = 2048))))
  /\ (rowwise_heuristic_dispatch AB D E M N K
      = a8w8_rowwise_128x16x32x128_16x16_1x1_8x16x1_8x16x1_1x16x1x8_4x4x1_1x1_intrawave_v2 AB D E
      <-> M < 64 /\ 2048 <= N /\ 512 <= K < 2048)
  /\ (rowwise_heuristic_dispatch AB D E M N K
      = a8w8_rowwise_128x32x16x128_16x16_1x1_8x16x1_8x16x1_1x16x1x8_2x2x1_1x1_interwave_v2 AB D E
      <-> M < 64 /\ N < 2048 /\ 2048 <= K)
  /\ (rowwise_heuristic_dispatch AB D E M N K
      = a8w8_rowwise_64x16x16x256_16x16_1x1_16x4x1_16x4x1_1x16x1x4_4x4x1_1x1_intrawave_v1 AB D E
      <-> M < 64 /\ 2048 < N /\ 2048 < K)
  /\ (rowwise_heuristic_dispatch AB D E M N K
      = a8w8_rowwise_256x128x128x128_32x32_2x2_8x32x1_8x32x1_1x32x1x8_8x8x1_1x1_interwave_v1 AB D E
      <-> 64 <= M /\ 512 <= K < 1024)
  /\ (rowwise_heuristic_dispatch AB D E M N K
      = a8w8_rowwise_256x128x128x128_32x32_2x2_8x32x1_8x32x1_1x32x1x8_8x8x1_1x1_intrawave_v3 AB D E
      <-> 64 <= M < 1024 /\ 1024 <= K)
  /\ (rowwise_heuristic_dispatch AB D E M N K
      = a8w8_rowwise_256x224x256x128_16x16_7x8_8x32x1_8x32x1_1x32x1x8_8x8x1_1x2_intrawave_v3 AB D E
      <-> 1024 <= M /\ N < 1024 /\ 1024 <= K).
Proof.
  unfold rowwise_heuristic_dispatch.
  repeat match goal with
         | |- context [if ?b then _ else _] =>
             let Hb := fresh "Hb" in destruct b eqn:Hb
         end;
    bool_to_Z;
    repeat match goal with
           | |- _ /\ _ => split
           | |- _ <-> _ => split
           end;
    intros Hregion;
    first [ reflexivity | discriminate Hregion | lia ].
Qed.

(** ** gemm_a8w8: rejected calls and the instantiation chosen *)

Section GemmFurther.
Variable GENERATE_LOOKUP_TABLE :
  DataType -> DataType -> DataType -> list (ShapeKey * RowwiseKernel).
Variable torch_fp8 : ScalarType.

Local Abbreviation gemm_at := (gemm_a8w8 GENERATE_LOOKUP_TABLE torch_fp8).

(** A kernel is only chosen for a call that passes the dtype checks. *)
Lemma select_kernel_passes (XQ WQ x_scale w_scale Y : Tensor) (bias : option Tensor)
    (kernel : RowwiseKernel) :
  select_kernel GENERATE_LOOKUP_TABLE torch_fp8 XQ WQ x_scale w_scale Y bias = Ok kernel ->
  passes_dtype_checks torch_fp8 XQ WQ x_scale w_scale Y bias = true.
Proof.
  unfold select_kernel, passes_dtype_checks, TORCH_CHECK.
  destruct ((bool_decide (dtype XQ = Char) || bool_decide (dtype XQ = torch_fp8))
            && bool_decide (dtype XQ = dtype WQ)); [| discriminate].
  destruct (bool_decide (dtype x_scale = dtype w_scale)); [| discriminate].
  cbn [mbind Result_bind andb].
  destruct bias as [b |]; [destruct (bool_decide (dtype b = dtype Y)); [| discriminate] |];
    cbn [mbind Result_bind andb];
    destruct (size XQ 0); cbn; try discriminate;
    destruct (size WQ 0); cbn; try discriminate;
    destruct (size XQ 1); cbn; try discriminate;
    unfold instantiation; destruct (dtype Y); try discriminate; reflexivity.
Qed.

(** X6. A call that fails a dtype check never reaches a kernel: it does
    not return, and its outcome is the same whatever the kernels would
    do and whatever the tensors hold. *)
Theorem gemm_a8w8_rejected (XQ WQ x_scale w_scale Y : Tensor) (bias : option Tensor)
    (splitK : Z) :
  passes_dtype_checks torch_fp8 XQ WQ x_scale w_scale Y bias = false ->
  forall (Memory : Type) (invoke invoke' : RowwiseKernel -> KernelArgs -> Memory ->
                                           Result (Tensor * Memory))
         (mem mem' : Memory),
    (forall result,
       gemm_at Memory invoke XQ WQ x_scale w_scale Y bias splitK mem <> Ok result)
    /\ gemm_at Memory invoke XQ WQ x_scale w_scale Y bias splitK mem
       = gemm_at Memory invoke' XQ WQ x_scale w_scale Y bias splitK mem'.
Proof.
  intros Hfails Memory invoke invoke' mem mem'. split.
  - intros [r m] Hret.
    apply gemm_a8w8_inversion in Hret as (_ & kernel & _ & _ & _ & Hsel & _).
    apply select_kernel_passes in Hsel. congruence.
  - destruct (double_to_int (std_pow2 splitK)) as [KBatch | e |] eqn:HK.
    + rewrite !(gemm_a8w8_factor _ _ _ _ _ _ _ _ _ _ _ _ _ HK).
      destruct (select_kernel GENERATE_LOOKUP_TABLE torch_fp8 XQ WQ x_scale w_scale Y bias)
        as [kernel | |] eqn:Hsel; [| reflexivity | reflexivity].
      apply select_kernel_passes in Hsel. congruence.
    + unfold double_to_int in HK. now destruct (in_int_range _).
    + unfold gemm_a8w8. rewrite HK.
      repeat match goal with
             | |- (?m ≫= _) = _ => destruct m; cbn [mbind Result_bind]; try reflexivity
             end.
Qed.

(** X7. The checks run in a fixed order, and the first failure is the one
    reported: the weights/activations check, then the scales, then the
    bias; the extents of [XQ] and [WQ] and the split are read next, and
    only then is an unsupported output dtype reported. *)
Theorem gemm_a8w8_error_order (Memory : Type)
    (invoke : RowwiseKernel -> KernelArgs -> Memory -> Result (Tensor * Memory))
    (XQ WQ x_scale w_scale Y : Tensor) (bias : option Tensor) (splitK : Z)
    (mem : Memory) :
  ((bool_decide (dtype XQ = Char) || bool_decide (dtype XQ = torch_fp8))
   && bool_decide (dtype XQ = dtype WQ) = false ->
   gemm_at Memory invoke XQ WQ x_scale w_scale Y bias splitK mem
   = Throw (c10_Error "Weights and activations should both be int8/fp8!"))
  /\ ((bool_decide (dtype XQ = Char) || bool_decide (dtype XQ = torch_fp8))
      && bool_decide (dtype XQ = dtype WQ) = true ->
      (dtype x_scale <> dtype w_scale ->
       gemm_at Memory invoke XQ WQ x_scale w_scale Y bias splitK mem
       = Throw (c10_Error "Scales should have the same dtype!"))
      /\ (dtype x_scale = dtype w_scale ->
          (forall b, bias = Some b -> dtype b <> dtype Y ->
             gemm_at Memory invoke XQ WQ x_scale w_scale Y bias splitK mem
             = Throw (c10_Error "Out amd bias should have the same dtype!"))
          /\ ((forall b, bias = Some b -> dtype b = dtype Y) ->
              dtype Y <> Half -> dtype Y <> BFloat16 ->
              ((length (sizes XQ) < 2)%nat \/ (length (sizes WQ) < 1)%nat ->
               gemm_at Memory invoke XQ WQ x_scale w_scale Y bias splitK mem
               = Throw (c10_IndexError "Dimension out of range"))
              /\ ((2 <= length (sizes XQ))%nat /\ (1 <= length (sizes WQ))%nat ->
                  (splitK <= 30 ->
                   gemm_at Memory invoke XQ WQ x_scale w_scale Y bias splitK mem
                   = Throw (c10_Error "Unsupported scales/output dtype!"))
                  /\ (30 < splitK ->
                      gemm_at Memory invoke XQ WQ x_scale w_scale Y bias splitK mem
                      = Undefined))))).
Proof.
  unfold gemm_a8w8, TORCH_CHECK. split; [now intros -> |].
  intros ->. cbn [mbind Result_bind]. split.
  { intros Hscales. now rewrite (bool_decide_eq_false_2 _ Hscales). }
  intros Hscales. rewrite (bool_decide_eq_true_2 _ Hscales).
  cbn [mbind Result_bind]. split.
  { intros b -> Hbias. now rewrite (bool_decide_eq_false_2 _ Hbias). }
  intros Hbias HnotHalf HnotBF.
  assert (match bias with
          | Some b => if bool_decide (dtype b = dtype Y) then Ok ()
                      else Throw (c10_Error "Out amd bias should have the same dtype!")
          | None => Ok ()
          end = Ok ()) as ->.
  { destruct bias as [b |]; [| reflexivity].
    now rewrite (bool_decide_eq_true_2 _ (Hbias b eq_refl)). }
  cbn [mbind Result_bind]. unfold size. split.
  - intros Hshort.
    destruct (sizes XQ) as [| m [| k rest]]; cbn; try reflexivity;
      destruct (sizes WQ) as [| n rest']; cbn in *; try reflexivity; lia.
  - intros [HXQ HWQ].
    destruct (sizes XQ) as [| m [| k rest]]; cbn in HXQ; try lia.
    destruct (sizes WQ) as [| n rest']; cbn in HWQ; try lia.
    cbn. split; intros Hsplit.
    + assert (exists KBatch, double_to_int (std_pow2 splitK) = Ok KBatch) as [KBatch ->].
      { destruct (Z.le_gt_cases 0 splitK).
        - exists (2 ^ splitK). apply double_to_int_pow2. lia.
        - exists 0. now apply double_to_int_pow2_negative. }
      cbn [mbind Result_bind].
      rewrite (bool_decide_eq_false_2 _ HnotHalf), (bool_decide_eq_false_2 _ HnotBF).
      rewrite !andb_false_r. now destruct (bool_decide (dtype XQ = Char)).
    + now rewrite double_to_int_pow2_overflow.
Qed.

(** X8. Which instantiation runs for a call that passes the checks: the
    input type is I8 for an int8 [XQ] and F8 otherwise (then [XQ] is of
    [torch_fp8]); the output type follows [Y]; the scale type is F32 for
    float scales and otherwise the output type, whatever dtype the scales
    have. The kernel of that instantiation is called once. *)
Theorem gemm_a8w8_instantiation (Memory : Type)
    (invoke : RowwiseKernel -> KernelArgs -> Memory -> Result (Tensor * Memory))
    (XQ WQ x_scale w_scale Y : Tensor) (bias : option Tensor) (splitK : Z)
    (mem : Memory) (m k n : Z) (rest rest' : list Z) :
  passes_dtype_checks torch_fp8 XQ WQ x_scale w_scale Y bias = true ->
  sizes XQ = m :: k :: rest -> sizes WQ = n :: rest' -> splitK <= 30 ->
  exists AB D E,
    AB = (if bool_decide (dtype XQ = Char) then I8 else F8)
    /\ (AB = F8 -> dtype XQ = torch_fp8)
    /\ E = (if bool_decide (dtype Y = Half) then F16 else B16)
    /\ (E = B16 -> dtype Y = BFloat16)
    /\ D = (if bool_decide (dtype x_scale = Float) then F32 else E)
    /\ gemm_at Memory invoke XQ WQ x_scale w_scale Y bias splitK mem
       = (kernel ← rowwise_dispatch GENERATE_LOOKUP_TABLE AB D E
                     (to_int m) (to_int n) (to_int k);
          r ← invoke kernel
                (mkArgs XQ WQ x_scale w_scale Y bias
                        (if 0 <=? splitK then 2 ^ splitK else 0)) mem;
          Ok (Y, r.2)).
Proof.
  unfold passes_dtype_checks. rewrite !andb_true_iff.
  intros [[[[H1 H2] H3] H4] H5] HXQ HWQ Hsplit.
  assert (double_to_int (std_pow2 splitK)
          = Ok (if 0 <=? splitK then 2 ^ splitK else 0)) as HK.
  { destruct (Z.leb_spec 0 splitK).
    - apply double_to_int_pow2. lia.
    - now apply double_to_int_pow2_negative. }
  rewrite (gemm_a8w8_factor _ _ _ _ _ _ _ _ _ _ _ _ _ HK).
  unfold select_kernel, size. rewrite HXQ, HWQ. cbn [stdpp.base.lookup list_lookup].
  unfold TORCH_CHECK. rewrite H1, H2, H3. cbn [mbind Result_bind].
  assert (match bias with
          | Some b => if bool_decide (dtype b = dtype Y) then Ok ()
                      else Throw (c10_Error "Out amd bias should have the same dtype!")
          | None => Ok ()
          end = Ok ()) as ->.
  { destruct bias; [now rewrite H4 | reflexivity]. }
  cbn. unfold instantiation.
  exists (if bool_decide (dtype XQ = Char) then I8 else F8),
         (if bool_decide (dtype x_scale = Float) then F32
          else if bool_decide (dtype Y = Half) then F16 else B16),
         (if bool_decide (dtype Y = Half) then F16 else B16).
  split; [reflexivity |]. split.
  { intros HAB. apply orb_true_iff in H1 as [HXC | Hfp8].
    - now rewrite HXC in HAB.
    - now apply bool_decide_eq_true_1 in Hfp8. }
  apply orb_true_iff in H5 as [HY | HY]; apply bool_decide_eq_true_1 in HY; rewrite HY.
  - split; [reflexivity |]. split; [discriminate |]. split; reflexivity.
  - split; [reflexivity |]. split; [intros _; reflexivity |]. split; reflexivity.
Qed.
End GemmFurther.

Lemma gemm_a8w8_rejected_witness :
  (forall result,
     gemm_a8w8 example_lookup_table Float8_e4m3fnuz _ recording_kernel
       example_XQ example_WQ example_x_scale example_w_scale example_x_scale None 0 []
     <> Ok result)
  /\ gemm_a8w8 example_lookup_table Float8_e4m3fnuz _ recording_kernel
       example_XQ example_WQ example_x_scale example_w_scale example_x_scale None 0 []
     = gemm_a8w8 example_lookup_table Float8_e4m3fnuz _
         (fun _ _ _ => Undefined)
         example_XQ example_WQ example_x_scale example_w_scale example_x_scale None 0 [].
Proof.
  apply (gemm_a8w8_rejected example_lookup_table Float8_e4m3fnuz
           example_XQ example_WQ example_x_scale example_w_scale example_x_scale None 0).
  reflexivity.
Defined.


Lemma gemm_a8w8_error_order_witness :
  gemm_a8w8 example_lookup_table Float8_e4m3fnuz _ recording_kernel
    example_XQ example_x_scale example_x_scale example_Y example_Y None 0 []
  = Throw (c10_Error "Weights and activations should both be int8/fp8!")
  /\ gemm_a8w8 example_lookup_table Float8_e4m3fnuz _ recording_kernel
       example_XQ example_WQ example_x_scale example_Y example_Y None 0 []
     = Throw (c10_Error "Scales should have the same dtype!")
  /\ gemm_a8w8 example_lookup_table Float8_e4m3fnuz _ recording_kernel
       example_XQ example_WQ example_x_scale example_w_scale example_x_scale None 0 []
     = Throw (c10_Error "Unsupported scales/output dtype!").
Proof.
  split; [| split].
  - apply (gemm_a8w8_error_order example_lookup_table Float8_e4m3fnuz _ recording_kernel
             example_XQ example_x_scale example_x_scale example_Y example_Y None 0 []).
    reflexivity.
  - apply (gemm_a8w8_error_order example_lookup_table Float8_e4m3fnuz _ recording_kernel
             example_XQ example_WQ example_x_scale example_Y example_Y None 0 []);
      [reflexivity | discriminate].
  - apply (gemm_a8w8_error_order example_lookup_table Float8_e4m3fnuz _ recording_kernel
             example_XQ example_WQ example_x_scale example_w_scale example_x_scale None 0 []);
      try reflexivity; try discriminate; cbn; lia.
Defined.

Lemma gemm_a8w8_instantiation_witness :
  exists AB D E,
    AB = I8 /\ (AB = F8 -> dtype example_XQ = Float8_e4m3fnuz)
    /\ E = B16 /\ (E = B16 -> dtype example_Y = BFloat16) /\ D = F32
    /\ gemm_a8w8 example_lookup_table Float8_e4m3fnuz _ recording_kernel
         example_XQ example_WQ example_x_scale example_w_scale example_Y None 3 []
       = (kernel ← rowwise_dispatch example_lookup_table AB D E
                     (to_int 4) (to_int 1280) (to_int 8192);
          r ← recording_kernel kernel
                (mkArgs example_XQ example_WQ example_x_scale example_w_scale
                        example_Y None 8) [];
          Ok (example_Y, r.2)).
Proof.
  exact (gemm_a8w8_instantiation example_lookup_table Float8_e4m3fnuz _ recording_kernel
           example_XQ example_WQ example_x_scale example_w_scale example_Y None 3 []
           4 8192 1280 [] [8192] eq_refl eq_refl eq_refl ltac:(lia)).
Defined.

(** ** IntTupleHash *)

(** X9. The hash of a shape does not see the order of its components:
    the six orderings of (M, N, K) share one hash value, and two equal
    components cancel, leaving the hash of the third. *)
Theorem IntTupleHash_symmetric (std_hash_int : Z -> Z) (a b c : Z) :
  IntTupleHash std_hash_int (a, b, c) = IntTupleHash std_hash_int (b, a, c)
  /\ IntTupleHash std_hash_int (a, b, c) = IntTupleHash std_hash_int (a, c, b)
  /\ IntTupleHash std_hash_int (a, b, c) = IntTupleHash std_hash_int (c, b, a)
  /\ IntTupleHash std_hash_int (a, b, c) = IntTupleHash std_hash_int (b, c, a)
  /\ IntTupleHash std_hash_int (a, b, c) = IntTupleHash std_hash_int (c, a, b)
  /\ IntTupleHash std_hash_int (a, a, c) = std_hash_int c
  /\ IntTupleHash std_hash_int (a, c, c) = std_hash_int a.
Proof.
  unfold IntTupleHash. cbn [fst snd].
  set (x := std_hash_int a). set (y := std_hash_int b). set (z := std_hash_int c).
  repeat split; apply Z.bits_inj'; intros n Hn; rewrite !Z.lxor_spec;
    destruct (Z.testbit x n), (Z.testbit y n), (Z.testbit z n); reflexivity.
Qed.

(** ** DIVIDE_ROUND_UP *)

(** X10. On [int] operands with [0 <= a] and [0 < b],
    [DIVIDE_ROUND_UP(a, b)] is the least number of blocks of size [b] that
    cover [a], exact on multiples of [b], as long as [a + b] is an [int];
    when the sum [a + b] overflows, the macro has no defined value. *)
Theorem DIVIDE_ROUND_UP_ceiling (a b : Z) :
  0 <= a <= INT_MAX -> 0 < b <= INT_MAX ->
  (a + b <= INT_MAX ->
   exists q,
     DIVIDE_ROUND_UP a b = Ok q
     /\ a <= q * b < a + b
     /\ (forall n, a <= n * b -> q <= n)
     /\ (forall k, a = k * b -> q = k))
  /\ (INT_MAX < a + b -> DIVIDE_ROUND_UP a b = Undefined).
Proof.
  intros Ha Hb. unfold DIVIDE_ROUND_UP, int_add, int_sub, int_div, int_result.
  unfold in_int_range, INT_MIN, INT_MAX in *. split.
  - intros Hsum.
    assert ((- 2 ^ 31 <=? a + b) && (a + b <=? 2 ^ 31 - 1) = true) as ->
      by (apply andb_true_iff; split; apply Z.leb_le; lia).
    cbn [mbind Result_bind].
    assert ((- 2 ^ 31 <=? a + b - 1) && (a + b - 1 <=? 2 ^ 31 - 1) = true) as ->
      by (apply andb_true_iff; split; apply Z.leb_le; lia).
    cbn [mbind Result_bind].
    destruct (Z.eqb_spec b 0) as [Hzero | Hnonzero]; [lia |].
    rewrite Z.quot_div_nonneg by lia.
    pose proof (Z.div_mod (a + b - 1) b ltac:(lia)) as Hdiv.
    pose proof (Z.mod_pos_bound (a + b - 1) b ltac:(lia)) as Hmod.
    assert (a <= (a + b - 1) / b * b < a + b) as Hcover by nia.
    assert ((- 2 ^ 31 <=? (a + b - 1) / b) && ((a + b - 1) / b <=? 2 ^ 31 - 1) = true) as ->
      by (apply andb_true_iff; split; apply Z.leb_le; nia).
    eexists. split; [reflexivity |]. split; [exact Hcover |]. split.
    + intros n Hn.
      destruct (Z.le_gt_cases ((a + b - 1) / b) n) as [Hle | Hgt]; [exact Hle | nia].
    + intros k ->. nia.
  - intros Hsum.
    assert ((- 2 ^ 31 <=? a + b) && (a + b <=? 2 ^ 31 - 1) = false) as ->
      by (apply andb_false_iff; right; apply Z.leb_gt; lia).
    reflexivity.
Qed.

Lemma DIVIDE_ROUND_UP_ceiling_witness :
  (exists q,
     DIVIDE_ROUND_UP 10 4 = Ok q
     /\ 10 <= q * 4 < 10 + 4
     /\ (forall n, 10 <= n * 4 -> q <= n)
     /\ (forall k, 10 = k * 4 -> q = k))
  /\ DIVIDE_ROUND_UP 2147483647 2 = Undefined.
Proof.
  split.
  - apply (DIVIDE_ROUND_UP_ceiling 10 4); unfold INT_MAX; lia.
  - apply (DIVIDE_ROUND_UP_ceiling 2147483647 2); unfold INT_MAX; lia.
Defined.

(** ** execute_cmd *)

Lemma append_cons (c : ascii) (a b : string) : String c a +:+ b = String c (a +:+ b).
Proof. reflexivity. Qed.

Lemma append_empty_r (a : string) : a +:+ "" = a.
Proof. induction a as [| c a IH]; [reflexivity |]. now rewrite append_cons, IH. Qed.

Lemma append_associative (a b c : string) : (a +:+ b) +:+ c = a +:+ (b +:+ c).
Proof. induction a as [| x a IH]; [reflexivity |]. now rewrite !append_cons, IH. Qed.

Lemma length_append (a b : string) :
  String.length (a +:+ b) = (String.length a + String.length b)%nat.
Proof. induction a as [| x a IH]; [reflexivity |]. rewrite append_cons. cbn. now rewrite IH. Qed.

(** [fgets] splits the stream, and takes at least one character off a
    stream that is not empty. *)
Lemma fgets_split (limit : nat) (stream stored left : string) :
  fgets limit stream = (stored, left) -> stored +:+ left = stream.
Proof.
  revert stream stored left.
  induction limit as [| limit IH]; intros [| c rest] stored left; cbn;
    try (now intros [= <- <-]).
  destruct (bool_decide (c = "010"%char)); [now intros [= <- <-] |].
  destruct (fgets limit rest) as [stored' left'] eqn:Hrest.
  intros [= <- <-]. rewrite append_cons. f_equal. now apply IH.
Qed.

Lemma fgets_progress (limit : nat) (c : ascii) (rest stored left : string) :
  fgets (S limit) (String c rest) = (stored, left) ->
  (String.length left <= String.length rest)%nat.
Proof.
  intros Hget. pose proof (fgets_split _ _ _ _ Hget) as Hsplit.
  apply (f_equal String.length) in Hsplit. rewrite length_append in Hsplit.
  cbn in Hget. destruct (bool_decide (c = "010"%char)).
  - injection Hget as <- <-. lia.
  - destruct (fgets limit rest) as [stored' left']. injection Hget as <- <-.
    cbn in Hsplit. lia.
Qed.

Lemma contains_nul_append (a b : string) :
  contains_nul (a +:+ b) = contains_nul a || contains_nul b.
Proof.
  induction a as [| c a IH]; [reflexivity |].
  rewrite append_cons. cbn. now rewrite IH, orb_assoc.
Qed.

Lemma c_str_without_nul (buffer : string) :
  contains_nul buffer = false -> c_str buffer = buffer.
Proof.
  induction buffer as [| c buffer IH]; [reflexivity |]. cbn.
  destruct (bool_decide (c = "000"%char)); [discriminate |].
  cbn. intros Hrest. now rewrite IH.
Qed.

Lemma c_str_length (buffer : string) :
  (String.length (c_str buffer) <= String.length buffer)%nat
  /\ (contains_nul buffer = true ->
      String.length (c_str buffer) < String.length buffer)%nat.
Proof.
  induction buffer as [| c buffer [IHle IHlt]]; [split; [reflexivity | discriminate] |].
  cbn. destruct (bool_decide (c = "000"%char)); cbn; [split; intros; lia |].
  split; [lia |]. intros Hnul. specialize (IHlt Hnul). lia.
Qed.

Lemma read_pipe_without_nul (fuel : nat) (stream result : string) :
  (String.length stream <= fuel)%nat -> contains_nul stream = false ->
  read_pipe fuel stream result = result +:+ stream.
Proof.
  revert stream result.
  induction fuel as [| fuel IH]; intros [| c rest] result Hfuel Hnul;
    cbn [read_pipe]; try (now rewrite append_empty_r); [cbn in Hfuel; lia |].
  destruct (fgets 127 (String c rest)) as [stored left] eqn:Hget.
  pose proof (fgets_split _ _ _ _ Hget) as Hsplit.
  pose proof (fgets_progress _ _ _ _ _ Hget) as Hless.
  rewrite <- Hsplit, contains_nul_append in Hnul.
  apply orb_false_iff in Hnul as [Hstored Hleft].
  rewrite (c_str_without_nul stored Hstored).
  rewrite IH by (cbn in Hfuel; lia || exact Hleft).
  now rewrite append_associative, Hsplit.
Qed.

Lemma read_pipe_length (fuel : nat) (stream result : string) :
  (String.length (read_pipe fuel stream result)
   <= String.length result + String.length stream)%nat
  /\ ((String.length stream <= fuel)%nat -> contains_nul stream = true ->
      (String.length (read_pipe fuel stream result)
       < String.length result + String.length stream)%nat).
Proof.
  revert stream result.
  induction fuel as [| fuel IH]; intros [| c rest] result; cbn [read_pipe].
  - split; [cbn; lia | discriminate].
  - split; [cbn; lia | cbn; lia].
  - split; [cbn; lia | discriminate].
  - destruct (fgets 127 (String c rest)) as [stored left] eqn:Hget.
    pose proof (fgets_split _ _ _ _ Hget) as Hsplit.
    pose proof (fgets_progress _ _ _ _ _ Hget) as Hless.
    destruct (IH left (result +:+ c_str stored)) as [IHle IHlt].
    destruct (c_str_length stored) as [Hle Hlt].
    assert (String.length (String c rest)
            = String.length stored + String.length left)%nat as Hlen
      by now rewrite <- Hsplit, length_append.
    rewrite length_append in IHle, IHlt. split; [lia |].
    intros Hfuel Hnul. rewrite <- Hsplit, contains_nul_append in Hnul.
    cbn in Hfuel.
    destruct (contains_nul stored) eqn:Hstored.
    + specialize (Hlt eq_refl). lia.
    + cbn in Hnul. specialize (IHlt ltac:(lia) Hnul). lia.
Qed.

(** X11. [execute_cmd] throws "popen() failed!" when the pipe cannot be
    opened. Otherwise it returns the status of [pclose] and the output of
    the command: all of it, whatever the length of its lines, when the
    output holds no NUL byte, and strictly less than all of it when it
    does, since each 128-byte chunk is appended as a C string. *)
Theorem execute_cmd_output (popen : string -> option (string * Z)) (cmd : string) :
  (popen cmd = None ->
   execute_cmd popen cmd = Throw (runtime_error "popen() failed!"))
  /\ (forall output status,
        popen cmd = Some (output, status) ->
        (contains_nul output = false -> execute_cmd popen cmd = Ok (output, status))
        /\ (contains_nul output = true ->
            exists result,
              execute_cmd popen cmd = Ok (result, status)
              /\ (String.length result < String.length output)%nat)).
Proof.
  unfold execute_cmd. split; [now intros -> |].
  intros output status ->. split.
  - intros Hnul. now rewrite read_pipe_without_nul by (lia || exact Hnul).
  - intros Hnul. eexists. split; [reflexivity |].
    destruct (read_pipe_length (String.length output) output "") as [_ Hlt].
    apply Hlt; [lia | exact Hnul].
Qed.

(** ** hash_signature and the canonical string *)

Lemma concat_empty_cons (x : string) (xs : list string) :
  String.concat "" (x :: xs) = x +:+ String.concat "" xs.
Proof. destruct xs as [| y ys]; [now rewrite append_empty_r | reflexivity]. Qed.

Lemma hash_signature_cons (b : byte) (l : list byte) :
  String.concat "" (hex_byte <$> b :: l)
  = String (hex_digit (Byte.to_N b / 16))
      (String (hex_digit (Byte.to_N b mod 16)) (String.concat "" (hex_byte <$> l))).
Proof. rewrite fmap_cons, concat_empty_cons. reflexivity. Qed.

Lemma hex_byte_injective (b b' : byte) : hex_byte b = hex_byte b' -> b = b'.
Proof.
  intros Heq.
  assert (forall x, Byte.of_N (match hex_byte x with
                               | String h (String l _) =>
                                   let value c := (if (N_of_ascii c <? 58)%N
                                                   then N_of_ascii c - 48
                                                   else N_of_ascii c - 87)%N in
                                   value h * 16 + value l
                               | _ => 0
                               end)%N = Some x) as Hdecode
    by (intros x; destruct x; reflexivity).
  pose proof (Hdecode b) as Hb. rewrite Heq, Hdecode in Hb. now injection Hb.
Qed.

Lemma hex_byte_characters (b : byte) (c : ascii) :
  c ∈ String.list_ascii_of_string (hex_byte b) ->
  isdigit c = true \/ 97 <= char_code c <= 102.
Proof.
  unfold hex_byte. cbn [String.list_ascii_of_string].
  intros Hc. apply elem_of_cons in Hc as [-> | Hc].
  - destruct b; vm_compute; (now left) || (right; split; discriminate).
  - apply list_elem_of_singleton in Hc as ->.
    destruct b; vm_compute; (now left) || (right; split; discriminate).
Qed.

(** X12. [hash_signature] prints the digest in hexadecimal, two characters
    of 0-9 and a-f for each byte, and loses nothing of it: two signatures
    get the same text exactly when their digests are equal. *)
Theorem hash_signature_hexadecimal (EVP_md5 : string -> list byte)
    (signature signature' : string) :
  String.length (hash_signature EVP_md5 signature)
  = (2 * length (EVP_md5 signature))%nat
  /\ (forall c, c ∈ String.list_ascii_of_string (hash_signature EVP_md5 signature) ->
                isdigit c = true \/ 97 <= char_code c <= 102)
  /\ (hash_signature EVP_md5 signature = hash_signature EVP_md5 signature'
      <-> EVP_md5 signature = EVP_md5 signature').
Proof.
  unfold hash_signature. split; [| split].
  - induction (EVP_md5 signature) as [| b l IH]; [reflexivity |].
    rewrite hash_signature_cons. cbn [String.length length]. rewrite IH. lia.
  - induction (EVP_md5 signature) as [| b l IH]; intros c Hc.
    + cbn in Hc. now apply elem_of_nil in Hc.
    + rewrite hash_signature_cons in Hc. cbn [String.list_ascii_of_string] in Hc.
      apply elem_of_cons in Hc as [-> | Hc];
        [apply (hex_byte_characters b); unfold hex_byte; cbn; left |].
      apply elem_of_cons in Hc as [-> | Hc];
        [apply (hex_byte_characters b); unfold hex_byte; cbn; right; left | now apply IH].
  - split; [| now intros ->].
    generalize (EVP_md5 signature) (EVP_md5 signature'). clear.
    induction l as [| b l IH]; intros [| b' l'].
    + reflexivity.
    + rewrite hash_signature_cons. discriminate.
    + rewrite hash_signature_cons. discriminate.
    + rewrite !hash_signature_cons. intros [= Hhigh Hlow Hrest].
      f_equal; [| now apply IH].
      apply hex_byte_injective. unfold hex_byte. now rewrite Hhigh, Hlow.
Qed.

Lemma concat_cons_cons (sep x y : string) (l : list string) :
  String.concat sep (x :: y :: l) = x +:+ sep +:+ String.concat sep (y :: l).
Proof. reflexivity. Qed.

Lemma concat_joined (sep a b : string) (l1 l2 : list string) :
  String.concat sep (l1 ++ (a +:+ sep +:+ b) :: l2)
  = String.concat sep (l1 ++ a :: b :: l2).
Proof.
  induction l1 as [| x l1 IH].
  - cbn [app]. rewrite concat_cons_cons. destruct l2 as [| y l2]; [reflexivity |].
    rewrite !concat_cons_cons. now rewrite !append_associative.
  - destruct l1 as [| y l1].
    + cbn [app] in *. rewrite concat_cons_cons, IH.
      now rewrite <- concat_cons_cons.
    + cbn [app] in *. rewrite !concat_cons_cons. now rewrite IH.
Qed.

(** X13. The canonical string does not tell an underscore inside an
    argument from the separator: an argument list with the argument a_b
    and the list with the two arguments a and b in its place get the same
    kernel name, in every state of the process. *)
Theorem get_default_func_name_underscore (EVP_md5 : string -> list byte) (w : World)
    (md_name a b : string) (before after : list string) (s : Process) :
  args_str (before ++ (a +:+ "_" +:+ b) :: after) = args_str (before ++ a :: b :: after)
  /\ get_default_func_name EVP_md5 w md_name (before ++ (a +:+ "_" +:+ b) :: after) s
     = get_default_func_name EVP_md5 w md_name (before ++ a :: b :: after) s.
Proof.
  assert (args_str (before ++ (a +:+ "_" +:+ b) :: after)
          = args_str (before ++ a :: b :: after)) as Hsame
    by (unfold args_str; now rewrite concat_joined).
  split; [exact Hsame |].
  unfold get_default_func_name. now rewrite Hsame.
Qed.

(** ** The names in the identifier cache *)

Section CacheContents.
Context {K V : Type} `{EqDecision K}.
Implicit Types (c : LRUCache K V) (l : list (K * V)) (k : K) (v : V).

Lemma find_entry_elem k v l : find_entry k l = Some v -> (k, v) ∈ l.
Proof.
  induction l as [| [k' v'] l IH]; [discriminate |]. cbn.
  destruct (decide (k' = k)) as [-> | Hne].
  - intros [= ->]. left.
  - intros Hfind. right. now apply IH.
Qed.

Lemma drop_entry_elem k l (e : K * V) : e ∈ drop_entry k l -> e ∈ l.
Proof.
  induction l as [| [k' v'] l IH]; [easy |]. cbn.
  destruct (decide (k' = k)) as [-> | Hne].
  - intros He. right. now apply IH.
  - intros [-> | He]%elem_of_cons; [left | right; now apply IH].
Qed.

Lemma removelast_elem l (e : K * V) : e ∈ removelast l -> e ∈ l.
Proof.
  induction l as [| x l IH]; [easy |]. cbn [removelast].
  destruct l as [| y l]; [intros He; now apply elem_of_nil in He |].
  intros [-> | He]%elem_of_cons; [left | right; now apply IH].
Qed.

(** A lookup puts nothing new into the cache, and an insertion nothing
    but the pair it is given. *)
Lemma LRUCache_get_elem k c (e : K * V) :
  e ∈ entries (LRUCache_get k c).2 -> e ∈ entries c.
Proof.
  unfold LRUCache_get. destruct (find_entry k (entries c)) as [v |] eqn:Hfind; [| easy].
  cbn. intros [-> | He]%elem_of_cons.
  - now apply find_entry_elem.
  - now apply drop_entry_elem in He.
Qed.

Lemma LRUCache_put_elem k v c (e : K * V) :
  e ∈ entries (LRUCache_put k v c) -> e = (k, v) \/ e ∈ entries c.
Proof.
  unfold LRUCache_put, evict. cbn [capacity entries].
  assert (e ∈ (k, v) :: drop_entry k (entries c) -> e = (k, v) \/ e ∈ entries c) as Hfront.
  { intros [-> | He]%elem_of_cons; [now left | right; now apply drop_entry_elem in He]. }
  destruct (is_unbounded (capacity c)); [exact Hfront |].
  destruct (capacity c <? _); [| exact Hfront].
  cbn [entries]. intros He. now apply Hfront, removelast_elem.
Qed.
End CacheContents.

Section NamesKeyed.
Variable EVP_md5 : string -> list byte.

Lemma names_keyed_call_once (w : World) (s : Process) :
  names_keyed EVP_md5 s -> names_keyed EVP_md5 (call_once_func_names w s).2.
Proof.
  intros Hkeyed. unfold call_once_func_names.
  destruct (func_names s) as [c |] eqn:Hc; [exact Hkeyed |].
  destruct (init_lru_cache w) as [c | e |] eqn:Hinit; [| exact Hkeyed | exact Hkeyed].
  intros c' key name [= <-] Hin. cbn in Hin.
  rewrite (init_lru_cache_empty w c Hinit) in Hin. now apply elem_of_nil in Hin.
Qed.

Lemma names_keyed_get (key : string) (s : Process) :
  names_keyed EVP_md5 s ->
  names_keyed EVP_md5 (func_names_get key s).2
  /\ forall name, (func_names_get key s).1 = Ok (Some name) ->
                  exists md_name, name = md_name +:+ "_" +:+ hash_signature EVP_md5 key.
Proof.
  intros Hkeyed. unfold func_names_get.
  destruct (func_names s) as [c |] eqn:Hc; [| split; [exact Hkeyed | discriminate]].
  pose proof (LRUCache_get_elem key c) as Helem.
  pose proof (LRUCache_get_result key c) as Hresult.
  destruct (LRUCache_get key c) as [found c'] eqn:Hget. cbn [fst snd] in *. split.
  - intros c0 key0 name0 [= <-] Hin. apply (Hkeyed c key0 name0 Hc), Helem, Hin.
  - intros name [= ->]. apply (Hkeyed c key name Hc).
    now apply find_entry_elem.
Qed.

Lemma names_keyed_put (key md_name : string) (s : Process) :
  names_keyed EVP_md5 s ->
  names_keyed EVP_md5
    (func_names_put key (md_name +:+ "_" +:+ hash_signature EVP_md5 key) s).2.
Proof.
  intros Hkeyed. unfold func_names_put.
  destruct (func_names s) as [c |] eqn:Hc; [| exact Hkeyed].
  intros c0 key0 name0 [= <-] Hin.
  apply LRUCache_put_elem in Hin as [[= -> ->] | Hin]; [now exists md_name |].
  now apply (Hkeyed c key0 name0 Hc).
Qed.

(** X14. The identifier cache keeps an invariant: every name it holds ends
    in the digest of the canonical string it is stored under. So whichever
    module's prefix a returned name carries, its digest is the one of the
    arguments asked for. *)
Theorem get_default_func_name_digest (w : World) (md_name : string)
    (args : list string) (s : Process) :
  names_keyed EVP_md5 s ->
  names_keyed EVP_md5 (get_default_func_name EVP_md5 w md_name args s).2
  /\ forall name,
       (get_default_func_name EVP_md5 w md_name args s).1 = Ok name ->
       exists md_name',
         name = md_name' +:+ "_" +:+ hash_signature EVP_md5 (args_str args).
Proof.
  intros Hkeyed. unfold get_default_func_name, jit_bind.
  pose proof (names_keyed_call_once w s Hkeyed) as Hinit.
  destruct (call_once_func_names w s) as [[[] | e |] s0];
    cbn [fst snd] in *; [| now split | now split].
  destruct (names_keyed_get (args_str args) s0 Hinit) as [Hget Hname].
  destruct (func_names_get (args_str args) s0) as [[[cached |] | e |] s2];
    cbn [fst snd] in *; [| | now split | now split].
  - unfold jit_ret. cbn [fst snd]. split; [exact Hget |].
    intros name [= <-]. now apply Hname.
  - pose proof (names_keyed_put (args_str args) md_name s2 Hget) as Hput.
    destruct (func_names_put _ _ s2) as [[[] | e |] s3];
      cbn [fst snd] in *; [| now split | now split].
    destruct (names_keyed_get (args_str args) s3 Hput) as [Hget' Hname'].
    destruct (func_names_get (args_str args) s3) as [[[fresh |] | e |] s4];
      cbn [fst snd] in *; [| now split | now split | now split].
    unfold jit_ret. cbn [fst snd]. split; [exact Hget' |].
    intros name [= <-]. now apply Hname'.
Qed.
End NamesKeyed.

Lemma get_default_func_name_digest_witness :
  names_keyed md5 start
  /\ names_keyed md5
       (get_default_func_name md5 example_world "module_a" ["float16"; "128"] start).2.
Proof.
  assert (names_keyed md5 start) as Hstart by (intros c key name; discriminate).
  split; [exact Hstart |].
  apply (get_default_func_name_digest md5 example_world "module_a" ["float16"; "128"]
           start Hstart).
Defined.

(** ** run_lib: the first load of a library *)

Lemma call_once_libs_frame (w : World) (s : Process) :
  aiter_root_dir (call_once_libs w s).2 = aiter_root_dir s
  /\ func_names (call_once_libs w s).2 = func_names s
  /\ dlopen_count (call_once_libs w s).2 = dlopen_count s.
Proof.
  unfold call_once_libs. destruct (libs s); [easy |].
  now destruct (init_lru_cache w).
Qed.

Lemma SharedLibrary_call_state (lib : SharedLibrary) (func_name : string)
    (t s : Process) :
  SharedLibrary_call lib func_name t = ((SharedLibrary_call lib func_name s).1, t).
Proof. unfold SharedLibrary_call. now destruct (bool_decide _). Qed.

(** A missing library is loaded from the artifact of the folder, put into
    the cache and found there by every later call. *)
Lemma run_lib_load (w : World) (func_name folder root : string)
    (symbols : list string) (c : LRUCache string SharedLibrary) (s s0 s1 : Process) :
  call_once_libs w s = (Ok (), s0) ->
  libs s0 = Some c ->
  find_entry func_name (entries c) = None ->
  holds_one (capacity c) ->
  get_root_dir w s0 = (Ok root, s1) ->
  files w !! (root </> "build" </> folder </> "lib.so") = Some (SharedObject symbols) ->
  exists s2 c2,
    run_lib w func_name folder s
    = ((SharedLibrary_call
          (mkLib (dlopen_count s) (root </> "build" </> folder </> "lib.so") symbols)
          func_name s).1, s2)
    /\ dlopen_count s2 = S (dlopen_count s)
    /\ libs s2 = Some c2
    /\ find_entry func_name (entries c2)
       = Some (mkLib (dlopen_count s) (root </> "build" </> folder </> "lib.so") symbols).
Proof.
  intros Hinit Hc Hmiss Hcap Hroot Hfile.
  destruct (call_once_libs_frame w s) as (_ & _ & Hcount0). rewrite Hinit in Hcount0.
  cbn [snd] in Hcount0.
  destruct (get_root_dir_resolved _ _ _ _ Hroot) as (_ & Hlibs1 & _ & Hcount1).
  unfold run_lib, jit_bind. rewrite Hinit.
  unfold libs_get at 1. rewrite Hc. unfold LRUCache_get at 1. rewrite Hmiss.
  rewrite (set_libs_same c s0 Hc), Hroot.
  unfold SharedLibrary_new. rewrite Hfile.
  unfold libs_put, libs_get. cbn [libs count_dlopen set_libs].
  rewrite Hlibs1, Hc. cbn [libs set_libs]. rewrite Hcount1, Hcount0.
  set (lib := mkLib (dlopen_count s) (root </> "build" </> folder </> "lib.so") symbols).
  destruct (LRUCache_put_found func_name lib c Hcap) as [_ Hfound].
  pose proof (LRUCache_get_find func_name func_name (LRUCache_put func_name lib c)) as Hkept.
  pose proof (LRUCache_get_result func_name (LRUCache_put func_name lib c)) as Hresult.
  destruct (LRUCache_get func_name (LRUCache_put func_name lib c)) as [found c2].
  cbn [fst snd] in *. rewrite Hfound in Hresult. subst found.
  match goal with
  | |- context [SharedLibrary_call lib func_name (set_libs c2 ?t)] =>
      rewrite (SharedLibrary_call_state lib func_name (set_libs c2 t) s)
  end.
  eexists _, c2. split; [reflexivity |]. cbn [dlopen_count libs set_libs count_dlopen].
  rewrite Hcount1, Hcount0, Hkept, Hfound. easy.
Qed.





(** ** What each function leaves alone *)

Lemma libs_get_frame (key : string) (s : Process) :
  aiter_root_dir (libs_get key s).2 = aiter_root_dir s
  /\ func_names (libs_get key s).2 = func_names s
  /\ dlopen_count (libs_get key s).2 = dlopen_count s.
Proof.
  unfold libs_get. destruct (libs s) as [c |]; [| easy].
  now destruct (LRUCache_get key c).
Qed.

Lemma libs_put_frame (key : string) (value : SharedLibrary) (s : Process) :
  aiter_root_dir (libs_put key value s).2 = aiter_root_dir s
  /\ func_names (libs_put key value s).2 = func_names s
  /\ dlopen_count (libs_put key value s).2 = dlopen_count s.
Proof. unfold libs_put. now destruct (libs s). Qed.

Lemma get_root_dir_frame (w : World) (s : Process) :
  libs (get_root_dir w s).2 = libs s
  /\ func_names (get_root_dir w s).2 = func_names s
  /\ dlopen_count (get_root_dir w s).2 = dlopen_count s
  /\ forall root, aiter_root_dir s = Some root ->
                  aiter_root_dir (get_root_dir w s).2 = Some root.
Proof.
  unfold get_root_dir. destruct (aiter_root_dir s) as [root |] eqn:Hroot.
  - cbn [snd]. repeat split. intros root' [= <-]. exact Hroot.
  - destruct (init_root_dir w); cbn; repeat split; discriminate.
Qed.

Lemma SharedLibrary_new_frame (w : World) (path : string) (s : Process) :
  aiter_root_dir (SharedLibrary_new w path s).2 = aiter_root_dir s
  /\ func_names (SharedLibrary_new w path s).2 = func_names s
  /\ (dlopen_count s <= dlopen_count (SharedLibrary_new w path s).2 <= S (dlopen_count s))%nat.
Proof.
  unfold SharedLibrary_new. destruct (files w !! path) as [[symbols |] |]; cbn;
    (split; [reflexivity | split; [reflexivity | lia]]).
Qed.

(** X17. Whatever it returns or throws, one [run_lib] constructs at most
    one [SharedLibrary], never touches the cache of kernel names, and
    leaves a root directory that is already resolved as it is. *)
Theorem run_lib_effects (w : World) (func_name folder : string) (s : Process) :
  func_names (run_lib w func_name folder s).2 = func_names s
  /\ (dlopen_count s <= dlopen_count (run_lib w func_name folder s).2
      <= S (dlopen_count s))%nat
  /\ forall root, aiter_root_dir s = Some root ->
                  aiter_root_dir (run_lib w func_name folder s).2 = Some root.
Proof.
  unfold run_lib, jit_bind.
  destruct (call_once_libs_frame w s) as (Hroot0 & Hnames0 & Hcount0).
  destruct (call_once_libs w s) as [[[] | e |] s0]; cbn [fst snd] in *;
    [| split; [easy | split; [lia | congruence]]
     | split; [easy | split; [lia | congruence]]].
  destruct (libs_get_frame func_name s0) as (Hroot1 & Hnames1 & Hcount1).
  destruct (libs_get func_name s0) as [[[lib |] | e |] s1]; cbn [fst snd] in *.
  - unfold jit_ret.
    rewrite (SharedLibrary_call_state lib func_name s1 s). cbn [snd].
    split; [congruence | split; [lia | congruence]].
  - destruct (get_root_dir_frame w s1) as (_ & Hnames2 & Hcount2 & Hroot2).
    destruct (get_root_dir w s1) as [[root | e |] s2]; cbn [fst snd] in *;
      [| split; [congruence | split; [lia | intros r Hr; apply Hroot2; congruence]]
       | split; [congruence | split; [lia | intros r Hr; apply Hroot2; congruence]]].
    destruct (SharedLibrary_new_frame w (root </> "build" </> folder </> "lib.so") s2)
      as (Hroot3 & Hnames3 & Hcount3).
    destruct (SharedLibrary_new w _ s2) as [[lib | e |] s3]; cbn [fst snd] in *;
      [| split; [congruence | split; [lia | intros r Hr; rewrite Hroot3; apply Hroot2; congruence]]
       | split; [congruence | split; [lia | intros r Hr; rewrite Hroot3; apply Hroot2; congruence]]].
    destruct (libs_put_frame func_name lib s3) as (Hroot4 & Hnames4 & Hcount4).
    destruct (libs_put func_name lib s3) as [[[] | e |] s4]; cbn [fst snd] in *;
      [| split; [congruence | split; [lia | intros r Hr; rewrite Hroot4, Hroot3; apply Hroot2; congruence]]
       | split; [congruence | split; [lia | intros r Hr; rewrite Hroot4, Hroot3; apply Hroot2; congruence]]].
    destruct (libs_get_frame func_name s4) as (Hroot5 & Hnames5 & Hcount5).
    assert (forall s6, func_names s6 = func_names (libs_get func_name s4).2 ->
                       dlopen_count s6 = dlopen_count (libs_get func_name s4).2 ->
                       aiter_root_dir s6 = aiter_root_dir (libs_get func_name s4).2 ->
                       func_names s6 = func_names s
                       /\ (dlopen_count s <= dlopen_count s6 <= S (dlopen_count s))%nat
                       /\ forall r, aiter_root_dir s = Some r -> aiter_root_dir s6 = Some r)
      as Hend.
    { intros s6 Hn Hd Hr. split; [congruence | split; [lia |]].
      intros r Hs. rewrite Hr, Hroot5, Hroot4, Hroot3. apply Hroot2. congruence. }
    destruct (libs_get func_name s4) as [[[lib' |] | e |] s5]; cbn [fst snd] in *;
      try (now apply Hend).
    rewrite (SharedLibrary_call_state lib' func_name s5 s). cbn [snd]. now apply Hend.
  - split; [congruence | split; [lia | congruence]].
  - split; [congruence | split; [lia | congruence]].
Qed.

Lemma call_once_func_names_frame (w : World) (s : Process) :
  aiter_root_dir (call_once_func_names w s).2 = aiter_root_dir s
  /\ libs (call_once_func_names w s).2 = libs s
  /\ dlopen_count (call_once_func_names w s).2 = dlopen_count s.
Proof.
  unfold call_once_func_names. destruct (func_names s); [easy |].
  now destruct (init_lru_cache w).
Qed.

Lemma func_names_get_frame (key : string) (s : Process) :
  aiter_root_dir (func_names_get key s).2 = aiter_root_dir s
  /\ libs (func_names_get key s).2 = libs s
  /\ dlopen_count (func_names_get key s).2 = dlopen_count s.
Proof.
  unfold func_names_get. destruct (func_names s) as [c |]; [| easy].
  now destruct (LRUCache_get key c).
Qed.

Lemma func_names_put_frame (key value : string) (s : Process) :
  aiter_root_dir (func_names_put key value s).2 = aiter_root_dir s
  /\ libs (func_names_put key value s).2 = libs s
  /\ dlopen_count (func_names_put key value s).2 = dlopen_count s.
Proof. unfold func_names_put. now destruct (func_names s). Qed.

(** X18. Naming a kernel and asking whether it is built load nothing:
    [get_default_func_name] leaves the library cache, the count of loads
    and the root directory as they are, and [not_built] leaves both caches
    and the count of loads as they are. *)
Theorem naming_and_not_built_load_nothing (EVP_md5 : string -> list byte) (w : World)
    (md_name folder : string) (args : list string) (s : Process) :
  (libs (get_default_func_name EVP_md5 w md_name args s).2 = libs s
   /\ dlopen_count (get_default_func_name EVP_md5 w md_name args s).2 = dlopen_count s
   /\ aiter_root_dir (get_default_func_name EVP_md5 w md_name args s).2
      = aiter_root_dir s)
  /\ (libs (not_built w folder s).2 = libs s
      /\ dlopen_count (not_built w folder s).2 = dlopen_count s
      /\ func_names (not_built w folder s).2 = func_names s).
Proof.
  split.
  - unfold get_default_func_name, jit_bind.
    destruct (call_once_func_names_frame w s) as (Hroot0 & Hlibs0 & Hcount0).
    destruct (call_once_func_names w s) as [[[] | e |] s0]; cbn [fst snd] in *;
      [| easy | easy].
    destruct (func_names_get_frame (args_str args) s0) as (Hroot1 & Hlibs1 & Hcount1).
    destruct (func_names_get (args_str args) s0) as [[[cached |] | e |] s1];
      cbn [fst snd] in *;
      [unfold jit_ret; cbn; repeat split; congruence | |
       repeat split; congruence | repeat split; congruence].
    destruct (func_names_put_frame (args_str args)
                (md_name +:+ "_" +:+ hash_signature EVP_md5 (args_str args)) s1)
      as (Hroot2 & Hlibs2 & Hcount2).
    destruct (func_names_put _ _ s1) as [[[] | e |] s2]; cbn [fst snd] in *;
      [| repeat split; congruence | repeat split; congruence].
    destruct (func_names_get_frame (args_str args) s2) as (Hroot3 & Hlibs3 & Hcount3).
    destruct (func_names_get (args_str args) s2) as [[[fresh |] | e |] s3];
      cbn [fst snd] in *; unfold jit_ret, jit_undefined; cbn [snd];
      repeat split; congruence.
  - unfold not_built, jit_bind.
    destruct (get_root_dir_frame w s) as (Hlibs & Hnames & Hcount & _).
    destruct (get_root_dir w s) as [[root | e |] s0]; cbn [fst snd] in *; easy.
Qed.

(** ** The root directory and the path of an artifact *)

(** X19. The root directory is resolved once in a process: after a
    [get_root_dir] that returned, every later one returns the same path
    and [not_built] looks under it, whatever AITER_ROOT_DIR and HOME say by
    then. *)
Theorem get_root_dir_once (w w' : World) (s s1 : Process) (root : string) :
  get_root_dir w s = (Ok root, s1) ->
  get_root_dir w' s1 = (Ok root, s1)
  /\ forall folder,
       not_built w' folder s1
       = (Ok (negb (path_exists w' (root </> "build" </> folder </> "lib.so"))), s1).
Proof.
  intros (Hstored & _)%get_root_dir_resolved.
  pose proof (get_root_dir_stored w' s1 root Hstored) as Hagain.
  split; [exact Hagain |]. intros folder.
  unfold not_built, jit_bind. now rewrite Hagain.
Qed.

Lemma get_root_dir_once_witness :
  get_root_dir (mkWorld {[ "AITER_ROOT_DIR" := "/opt" ]} ∅)
    (set_aiter_root_dir "/home/u/.aiter" start)
  = (Ok "/home/u/.aiter", set_aiter_root_dir "/home/u/.aiter" start)
  /\ forall folder,
       not_built (mkWorld {[ "AITER_ROOT_DIR" := "/opt" ]} ∅) folder
         (set_aiter_root_dir "/home/u/.aiter" start)
       = (Ok (negb (path_exists (mkWorld {[ "AITER_ROOT_DIR" := "/opt" ]} ∅)
                      ("/home/u/.aiter" </> "build" </> folder </> "lib.so"))),
          set_aiter_root_dir "/home/u/.aiter" start).
Proof.
  apply (get_root_dir_once example_world (mkWorld {[ "AITER_ROOT_DIR" := "/opt" ]} ∅)
           start (set_aiter_root_dir "/home/u/.aiter" start) "/home/u/.aiter").
  reflexivity.
Defined.

Lemma ends_with_separator_append (a b : string) :
  b <> "" -> ends_with_separator (a +:+ b) = ends_with_separator b.
Proof.
  intros Hb. induction a as [| c a IH]; [reflexivity |].
  rewrite append_cons. destruct (a +:+ b) as [| c' r] eqn:Hab.
  - destruct a; [change ("" +:+ b) with b in Hab; congruence |].
    rewrite append_cons in Hab. discriminate.
  - now rewrite <- IH.
Qed.

Lemma path_append_relative (p q : string) :
  is_absolute q = false -> p <> "" -> ends_with_separator p = false ->
  p </> q = p +:+ "/" +:+ q.
Proof.
  intros Hq Hp Hsep. unfold path_append. rewrite Hq, Hsep.
  now rewrite bool_decide_eq_false_2.
Qed.

(** X20. Where [not_built] looks for the artifact. For a folder that is a
    relative path without a trailing separator, under a root directory
    without one, it is root/build/folder/lib.so. An absolute folder
    replaces the root and the build directory altogether: the artifact is
    folder/lib.so. *)
Theorem not_built_path (w : World) (folder root : string) (s s1 : Process) :
  get_root_dir w s = (Ok root, s1) ->
  exists path,
    not_built w folder s = (Ok (negb (path_exists w path)), s1)
    /\ (is_absolute folder = true -> path = folder </> "lib.so")
    /\ (is_absolute folder = false -> folder <> "" ->
        ends_with_separator folder = false ->
        root <> "" -> ends_with_separator root = false ->
        path = root +:+ "/build/" +:+ folder +:+ "/lib.so").
Proof.
  intros Hroot. exists (root </> "build" </> folder </> "lib.so"). split; [| split].
  - unfold not_built, jit_bind. now rewrite Hroot.
  - intros Habsolute. unfold path_append at 2. now rewrite Habsolute.
  - intros Hrelative Hfolder Hsep Hnonempty Hrootsep.
    rewrite (path_append_relative root "build") by easy.
    assert (root +:+ "/" +:+ "build" <> "") as Hbuild
      by (destruct root; [congruence | discriminate]).
    rewrite (path_append_relative _ folder Hrelative Hbuild)
      by (now rewrite ends_with_separator_append).
    rewrite path_append_relative.
    + rewrite !append_associative. reflexivity.
    + reflexivity.
    + destruct root; [congruence | discriminate].
    + rewrite (ends_with_separator_append _ ("/" +:+ folder)) by discriminate.
      now rewrite (ends_with_separator_append "/" folder Hfolder).
Qed.

Lemma not_built_path_witness :
  exists path,
    not_built example_world "foo" start
    = (Ok (negb (path_exists example_world path)),
       set_aiter_root_dir "/home/u/.aiter" start)
    /\ path = "/home/u/.aiter/build/foo/lib.so".
Proof.
  destruct (not_built_path example_world "foo" "/home/u/.aiter" start
              (set_aiter_root_dir "/home/u/.aiter" start) eq_refl)
    as (path & Hcall & _ & Hrelative).
  exists path. split; [exact Hcall |]. now apply Hrelative.
Defined.

(** ** The cache size read from the environment *)

Lemma digits_of_uint (d : Decimal.uint) (acc : nat) (rest : string) :
  no_digit_ahead rest = true ->
  digits (Z.of_nat acc) (DecimalString.NilEmpty.string_of_uint d +:+ rest)
  = Z.of_nat (Nat.of_uint_acc d acc).
Proof.
  intros Hrest. revert acc.
  assert (forall acc, digits acc rest = acc) as Hstop.
  { intros acc. destruct rest as [| c rest]; [reflexivity |].
    cbn in Hrest. cbn. now destruct (isdigit c). }
  assert (forall (k : nat) acc,
            10 * Z.of_nat acc + Z.of_nat k = Z.of_nat (k + Nat.tail_mul 10 acc)) as Hstep
    by (intros k acc; rewrite Nat.tail_mul_spec; lia).
  induction d as [| d IH | d IH | d IH | d IH | d IH | d IH | d IH | d IH | d IH | d IH];
    intros acc; cbn [DecimalString.NilEmpty.string_of_uint Nat.of_uint_acc].
  - apply Hstop.
  - rewrite append_cons. cbn [digits]. change (isdigit "0") with true. cbv iota.
    change (char_code "0" - 48) with (Z.of_nat 0). now rewrite Hstep, IH.
  - rewrite append_cons. cbn [digits]. change (isdigit "1") with true. cbv iota.
    change (char_code "1" - 48) with (Z.of_nat 1). now rewrite Hstep, IH.
  - rewrite append_cons. cbn [digits]. change (isdigit "2") with true. cbv iota.
    change (char_code "2" - 48) with (Z.of_nat 2). now rewrite Hstep, IH.
  - rewrite append_cons. cbn [digits]. change (isdigit "3") with true. cbv iota.
    change (char_code "3" - 48) with (Z.of_nat 3). now rewrite Hstep, IH.
  - rewrite append_cons. cbn [digits]. change (isdigit "4") with true. cbv iota.
    change (char_code "4" - 48) with (Z.of_nat 4). now rewrite Hstep, IH.
  - rewrite append_cons. cbn [digits]. change (isdigit "5") with true. cbv iota.
    change (char_code "5" - 48) with (Z.of_nat 5). now rewrite Hstep, IH.
  - rewrite append_cons. cbn [digits]. change (isdigit "6") with true. cbv iota.
    change (char_code "6" - 48) with (Z.of_nat 6). now rewrite Hstep, IH.
  - rewrite append_cons. cbn [digits]. change (isdigit "7") with true. cbv iota.
    change (char_code "7" - 48) with (Z.of_nat 7). now rewrite Hstep, IH.
  - rewrite append_cons. cbn [digits]. change (isdigit "8") with true. cbv iota.
    change (char_code "8" - 48) with (Z.of_nat 8). now rewrite Hstep, IH.
  - rewrite append_cons. cbn [digits]. change (isdigit "9") with true. cbv iota.
    change (char_code "9" - 48) with (Z.of_nat 9). now rewrite Hstep, IH.
Qed.

Lemma to_uint_nonnil (n : nat) : Nat.to_uint n <> Decimal.Nil.
Proof.
  intros Hnil. apply (DecimalFacts.unorm_nonnil (Nat.to_uint n)).
  now rewrite <- DecimalNat.Unsigned.to_of, DecimalNat.Unsigned.of_to.
Qed.

Lemma digits_decimal (n : nat) (rest : string) :
  no_digit_ahead rest = true -> digits 0 (decimal n +:+ rest) = Z.of_nat n.
Proof.
  intros Hrest. unfold decimal.
  assert (DecimalString.NilZero.string_of_uint (Nat.to_uint n)
          = DecimalString.NilEmpty.string_of_uint (Nat.to_uint n)) as ->
    by (pose proof (to_uint_nonnil n); now destruct (Nat.to_uint n)).
  pose proof (digits_of_uint (Nat.to_uint n) 0 rest Hrest) as Hvalue.
  change (Z.of_nat 0) with 0 in Hvalue. rewrite Hvalue.
  change (Nat.of_uint_acc (Nat.to_uint n) 0) with (Nat.of_uint (Nat.to_uint n)).
  now rewrite DecimalNat.Unsigned.of_to.
Qed.

Lemma atoi_decimal (n : nat) (rest : string) :
  no_digit_ahead rest = true -> Z.of_nat n <= INT_MAX ->
  atoi (decimal n +:+ rest) = Ok (Z.of_nat n)
  /\ atoi ("-" +:+ decimal n +:+ rest) = Ok (- Z.of_nat n).
Proof.
  intros Hrest Hmax.
  pose proof (digits_decimal n rest Hrest) as Hvalue.
  assert (in_int_range (Z.of_nat n) = true /\ in_int_range (- Z.of_nat n) = true)
    as [Hpos Hneg].
  { unfold in_int_range, INT_MIN, INT_MAX in *.
    split; apply andb_true_iff; split; apply Z.leb_le; lia. }
  split.
  - unfold atoi.
    assert (skip_spaces (decimal n +:+ rest) = decimal n +:+ rest
            /\ match decimal n +:+ rest with
               | String "-"%char r => - digits 0 r
               | String "+"%char r => digits 0 r
               | _ => digits 0 (decimal n +:+ rest)
               end = digits 0 (decimal n +:+ rest)) as [-> ->].
    { unfold decimal. pose proof (to_uint_nonnil n) as Hnonnil.
      destruct (Nat.to_uint n); [congruence | ..];
        cbn [DecimalString.NilZero.string_of_uint DecimalString.NilEmpty.string_of_uint];
        rewrite append_cons;
        split; reflexivity. }
    now rewrite Hvalue, Hpos.
  - unfold atoi.
    change ("-" +:+ decimal n +:+ rest) with (String "-" (decimal n +:+ rest)).
    cbn [skip_spaces]. change (isspace "-") with false. cbv iota.
    now rewrite Hvalue, Hneg.
Qed.

(** X21. A cache size given in AITER_MAX_CACHE_SIZE as a decimal numeral
    that fits an [int], with or without a minus sign, becomes the capacity
    of the cache; text after the numeral that does not go on with a digit
    is ignored. *)
Theorem init_lru_cache_decimal {K V : Type} (w : World) (n : nat) (rest : string) :
  no_digit_ahead rest = true -> Z.of_nat n <= INT_MAX ->
  (getenv w "AITER_MAX_CACHE_SIZE" = Some (decimal n +:+ rest) ->
   init_lru_cache (K := K) (V := V) w = Ok (LRUCache_new (Z.of_nat n)))
  /\ (getenv w "AITER_MAX_CACHE_SIZE" = Some ("-" +:+ decimal n +:+ rest) ->
      init_lru_cache (K := K) (V := V) w = Ok (LRUCache_new (- Z.of_nat n))).
Proof.
  intros Hrest Hmax. destruct (atoi_decimal n rest Hrest Hmax) as [Hplain Hminus].
  unfold init_lru_cache. split; intros ->.
  - now rewrite Hplain.
  - now rewrite Hminus.
Qed.

Lemma init_lru_cache_decimal_witness :
  init_lru_cache (K := string) (V := string)
    (mkWorld {[ "AITER_MAX_CACHE_SIZE" := "128 entries" ]} ∅)
  = Ok (LRUCache_new 128).
Proof.
  destruct (init_lru_cache_decimal (K := string) (V := string)
              (mkWorld {[ "AITER_MAX_CACHE_SIZE" := "128 entries" ]} ∅)
              128 " entries") as [Hplain _].
  - reflexivity.
  - vm_compute. discriminate.
  - apply Hplain. reflexivity.
Defined.

(** X22. Where the root directory comes from, the first time it is asked
    for: AITER_ROOT_DIR when it is set, whatever HOME says; HOME
    otherwise; and with neither set the path is built from a null pointer,
    so [get_root_dir] and [not_built] have no defined behaviour. *)
Theorem get_root_dir_environment (w : World) (s : Process) :
  aiter_root_dir s = None ->
  (forall dir, getenv w "AITER_ROOT_DIR" = Some dir ->
               get_root_dir w s = (Ok (dir </> ".aiter"),
                                   set_aiter_root_dir (dir </> ".aiter") s))
  /\ (forall home, getenv w "AITER_ROOT_DIR" = None -> getenv w "HOME" = Some home ->
                   get_root_dir w s = (Ok (home </> ".aiter"),
                                       set_aiter_root_dir (home </> ".aiter") s))
  /\ (getenv w "AITER_ROOT_DIR" = None -> getenv w "HOME" = None ->
      get_root_dir w s = (Undefined, s)
      /\ forall folder, not_built w folder s = (Undefined, s)).
Proof.
  intros Hfresh. unfold not_built, jit_bind, get_root_dir, init_root_dir.
  rewrite Hfresh. split; [| split].
  - now intros dir ->.
  - now intros home -> ->.
  - now intros -> ->.
Qed.

Lemma get_root_dir_environment_witness :
  get_root_dir (mkWorld {[ "AITER_ROOT_DIR" := "/opt/aiter/"; "HOME" := "/home/u" ]} ∅) start
  = (Ok "/opt/aiter/.aiter", set_aiter_root_dir "/opt/aiter/.aiter" start)
  /\ not_built (mkWorld ∅ ∅) "foo" start = (Undefined, start).
Proof.
  split.
  - destruct (get_root_dir_environment
                (mkWorld {[ "AITER_ROOT_DIR" := "/opt/aiter/"; "HOME" := "/home/u" ]} ∅)
                start eq_refl) as [Hset _].
    apply (Hset "/opt/aiter/"). reflexivity.
  - reflexivity.
Defined.
